(** * AMAT (Android Memory Acquisition Tool): the file-extraction engine

    A shallow embedding of the path sanitizer [_sanitize_path] and of the
    per-file extraction pipeline [_extract_file_production] of
    [amat_data_collection.py] (class [ProductionForensicAcquisition]) and of
    its copy in [main.py] (class [ForensicAcquisition]), together with the
    properties of the engine.

    Modelling conventions.
    - A Python [str] is a list of characters, [pystr := list ascii]; a
      character of the model is a code point below 256.  [len] is [length].
    - [bytes] are lists of [Byte.byte]; [str.encode()] is UTF-8.
    - 32-bit words of MD5 are numbers in [N] with the wrap-around written out.
    - The session object ([self]) and the workstation/device surroundings are
      an explicit state threaded through a state-and-exception monad.
    - Line numbers refer to [amat_data_collection.py]; [main.py] holds the
      same code without the comments (lines 160-188 and 362-450 there). *)

From Stdlib Require Import NArith ZArith QArith Ascii String Lia.
From Stdlib.Strings Require Import Byte.
From Stdlib Require DecimalString DecimalPos DecimalZ.
From stdpp Require Import base list gmap.

Local Open Scope N_scope.

(** ** Python strings *)

Definition pystr := list ascii.

(** A string literal of the source. *)
Definition str (s : string) : pystr := list_ascii_of_string s.

Definition ch_slash : ascii := "/"%char.
Definition ch_underscore : ascii := "_"%char.
Definition ch_dot : ascii := "."%char.

(** [s.startswith(p)] *)
Fixpoint startswith (s p : pystr) : bool :=
  match p, s with
  | [], _ => true
  | _ :: _, [] => false
  | c :: p', d :: s' => if Ascii.eqb c d then startswith s' p' else false
  end.

(** [s.endswith(p)] *)
Definition endswith (s p : pystr) : bool := startswith (rev s) (rev p).

(** [s.split(sep)] for a one-character separator: the pieces between the
    separators, empty pieces included. *)
Fixpoint split_on (sep : ascii) (s : pystr) : list pystr :=
  match s with
  | [] => [[]]
  | c :: s' =>
      if Ascii.eqb c sep then [] :: split_on sep s'
      else match split_on sep s' with
           | [] => [[c]]
           | w :: ws => (c :: w) :: ws
           end
  end.

(** [sep.join(parts)] *)
Fixpoint join (sep : pystr) (parts : list pystr) : pystr :=
  match parts with
  | [] => []
  | [w] => w
  | w :: ws => w ++ sep ++ join sep ws
  end.

(** [s.replace(old, new)] for one-character [old] and [new]. *)
Definition replace_char (old new : ascii) (s : pystr) : pystr :=
  map (fun c => if Ascii.eqb c old then new else c) s.

(** [s.lstrip('/')] *)
Fixpoint lstrip_slash (s : pystr) : pystr :=
  match s with
  | c :: s' => if Ascii.eqb c ch_slash then lstrip_slash s' else s
  | [] => []
  end.

(** [os.path.basename] of [posixpath]: what follows the last ['/']. *)
Definition basename (p : pystr) : pystr := List.last (split_on ch_slash p) [].

(** ** UTF-8 and MD5 ([hashlib.md5(s.encode()).hexdigest()]) *)

Definition bytes := list byte.

Definition utf8_char (c : ascii) : bytes :=
  let n := N_of_ascii c in
  if n <? 128 then [byte_of_ascii c]
  else [byte_of_ascii (ascii_of_N (192 + n / 64));
        byte_of_ascii (ascii_of_N (128 + n mod 64))].

Definition encode (s : pystr) : bytes := flat_map utf8_char s.

Module MD5.

Definition mask32 : N := 0xFFFFFFFF.
Definition add32 (a b : N) : N := (a + b) mod 0x100000000.
Definition not32 (a : N) : N := N.lxor a mask32.
Definition rotl32 (x c : N) : N :=
  N.land (N.lor (N.shiftl x c) (N.shiftr x (32 - c))) mask32.

Definition S_table : list N :=
  [7; 12; 17; 22; 7; 12; 17; 22; 7; 12; 17; 22; 7; 12; 17; 22;
   5; 9; 14; 20; 5; 9; 14; 20; 5; 9; 14; 20; 5; 9; 14; 20;
   4; 11; 16; 23; 4; 11; 16; 23; 4; 11; 16; 23; 4; 11; 16; 23;
   6; 10; 15; 21; 6; 10; 15; 21; 6; 10; 15; 21; 6; 10; 15; 21].

Definition K_table : list N :=
  [0xd76aa478; 0xe8c7b756; 0x242070db; 0xc1bdceee;
   0xf57c0faf; 0x4787c62a; 0xa8304613; 0xfd469501;
   0x698098d8; 0x8b44f7af; 0xffff5bb1; 0x895cd7be;
   0x6b901122; 0xfd987193; 0xa679438e; 0x49b40821;
   0xf61e2562; 0xc040b340; 0x265e5a51; 0xe9b6c7aa;
   0xd62f105d; 0x02441453; 0xd8a1e681; 0xe7d3fbc8;
   0x21e1cde6; 0xc33707d6; 0xf4d50d87; 0x455a14ed;
   0xa9e3e905; 0xfcefa3f8; 0x676f02d9; 0x8d2a4c8a;
   0xfffa3942; 0x8771f681; 0x6d9d6122; 0xfde5380c;
   0xa4beea44; 0x4bdecfa9; 0xf6bb4b60; 0xbebfbc70;
   0x289b7ec6; 0xeaa127fa; 0xd4ef3085; 0x04881d05;
   0xd9d4d039; 0xe6db99e5; 0x1fa27cf8; 0xc4ac5665;
   0xf4292244; 0x432aff97; 0xab9423a7; 0xfc93a039;
   0x655b59c3; 0x8f0ccc92; 0xffeff47d; 0x85845dd1;
   0x6fa87e4f; 0xfe2ce6e0; 0xa3014314; 0x4e0811a1;
   0xf7537e82; 0xbd3af235; 0x2ad7d2bb; 0xeb86d391].

(** Little-endian bytes of a number, [k] of them. *)
Fixpoint le_bytes (k : nat) (x : N) : list N :=
  match k with
  | O => []
  | S k' => (x mod 256) :: le_bytes k' (x / 256)
  end.

Fixpoint le_word (bs : list N) : N :=
  match bs with
  | [] => 0
  | b :: bs' => b + 256 * le_word bs'
  end.

(** Padding: a 1 bit, zeros up to 56 modulo 64, the bit length on 64 bits. *)
Definition pad (msg : list N) : list N :=
  let len := N.of_nat (length msg) in
  let zeros := N.to_nat ((55 + 64 - len mod 64) mod 64) in
  msg ++ [128] ++ repeat 0 zeros ++ le_bytes 8 ((8 * len) mod 0x10000000000000000).

Fixpoint chunks (n : nat) (fuel : nat) (l : list N) : list (list N) :=
  match fuel, l with
  | _, [] => []
  | O, _ => []
  | S fuel', _ => firstn n l :: chunks n fuel' (skipn n l)
  end.

Definition words (block : list N) : list N :=
  map le_word (chunks 4 16 block).

Record regs := Regs { rA : N; rB : N; rC : N; rD : N }.

Definition init : regs :=
  Regs 0x67452301 0xefcdab89 0x98badcfe 0x10325476.

Definition round (M : list N) (r : regs) (i : nat) : regs :=
  let '(Regs A B C D) := r in
  let iN := N.of_nat i in
  let '(F, g) :=
    if iN <? 16 then (N.lor (N.land B C) (N.land (not32 B) D), iN)
    else if iN <? 32 then
      (N.lor (N.land D B) (N.land (not32 D) C), (5 * iN + 1) mod 16)
    else if iN <? 48 then (N.lxor (N.lxor B C) D, (3 * iN + 5) mod 16)
    else (N.lxor C (N.lor B (not32 D)), (7 * iN) mod 16) in
  let F' := add32 (add32 (add32 F A) (nth i K_table 0)) (nth (N.to_nat g) M 0) in
  Regs D (add32 B (rotl32 F' (nth i S_table 0))) B C.

Definition process (r : regs) (block : list N) : regs :=
  let r' := fold_left (round (words block)) (seq 0 64) r in
  Regs (add32 (rA r) (rA r')) (add32 (rB r) (rB r'))
       (add32 (rC r) (rC r')) (add32 (rD r) (rD r')).

Definition digest (msg : bytes) : list N :=
  let m := pad (map Byte.to_N msg) in
  let r := fold_left process (chunks 64 (length m) m) init in
  le_bytes 4 (rA r) ++ le_bytes 4 (rB r) ++ le_bytes 4 (rC r) ++ le_bytes 4 (rD r).

Definition hex_digit (n : N) : ascii :=
  if n <? 10 then ascii_of_N (48 + n) else ascii_of_N (87 + n).

Definition hex_byte (b : N) : pystr := [hex_digit (b / 16); hex_digit (b mod 16)].

Definition hexdigest (msg : bytes) : pystr := flat_map hex_byte (digest msg).

End MD5.

(** ** Configuration ([class Config]) *)

Module Config.
Definition MAX_FILE_SIZE_MB : Q := 500.
Definition MAX_PATH_LENGTH : Z := 200.
Definition VERBOSE : bool := true.
Definition PULL_TIMEOUT : Z := 180.
End Config.

(** ** The path sanitizer ([_sanitize_path], lines 162-202) *)

(** [s[:n]] for any integer [n]: a negative [n] counts from the end. *)
Definition py_take (n : Z) (s : pystr) : pystr :=
  if (0 <=? n)%Z then take (Z.to_nat n) s
  else take (length s - Z.to_nat (- n)) s.

(** The list [invalid_chars] of the source: colon, star, question mark, double
    quote (code 34), the two angle brackets, the bar, newline (10), carriage
    return (13) and tab (9). *)
Definition invalid_chars : list ascii :=
  [":"%char; "*"%char; "?"%char; ascii_of_N 34; "<"%char; ">"%char; "|"%char;
   ascii_of_N 10; ascii_of_N 13; ascii_of_N 9].

(** The body of the loop of [_sanitize_path] for one non-empty part
    (lines 178-192). *)
Definition sanitize_part (part : pystr) : pystr :=
  let sanitized :=
    fold_left (fun s char => replace_char char ch_underscore s) invalid_chars part in
  let sanitized :=
    if startswith sanitized [ch_dot] then ch_underscore :: drop 1 sanitized
    else sanitized in
  if (100 <? length sanitized)%nat then take 100 sanitized else sanitized.

(** The loop [for part in parts], with its [continue] on empty parts
    (lines 174-192). *)
Fixpoint sanitized_parts (parts : list pystr) : list pystr :=
  match parts with
  | [] => []
  | part :: rest =>
      match part with
      | [] => sanitized_parts rest
      | _ => sanitize_part part :: sanitized_parts rest
      end
  end.

(** [result] before the length limit: ['/'.join(sanitized_parts)]
    (line 194). *)
Definition sanitized_join (path : pystr) : pystr :=
  join [ch_slash] (sanitized_parts (split_on ch_slash path)).

(** [hashlib.md5(s.encode()).hexdigest()[:8]] *)
Definition md5_hex8 (s : pystr) : pystr := py_take 8 (MD5.hexdigest (encode s)).

Definition _sanitize_path (path : pystr) : pystr :=
  let result := sanitized_join path in
  if (Config.MAX_PATH_LENGTH <? Z.of_nat (length result))%Z then
    let hash_suffix := md5_hex8 result in
    py_take (Config.MAX_PATH_LENGTH - 10) result ++ [ch_underscore] ++ hash_suffix
  else result.

(** ** Statistics ([AcquisitionStats]) *)

(** The [float] megabyte totals are rationals; a file size in megabytes is the
    exact quotient of its byte size (dividing by 1024 is exact in binary
    floating point for any size a file system reports), so the two comparisons
    the pipeline makes on it are the ones of the source. *)
Record AcquisitionStats := {
  volatile_mb : Q;
  app_data_mb : Q;
  media_mb : Q;
  documents_mb : Q;
  downloads_mb : Q;
  system_mb : Q;
  total_mb : Q;
  processes_scanned : Z;
  memory_maps_acquired : Z;
  apps_processed : Z;
  databases_acquired : Z;
  photos_acquired : Z;
  videos_acquired : Z;
  audio_acquired : Z;
  documents_acquired : Z;
  total_files : Z;
  failed_files : Z;
  path_errors : Z;
  extraction_errors : Z
}.

Definition stats_init : AcquisitionStats :=
  Build_AcquisitionStats 0 0 0 0 0 0 0 0 0 0 0 0 0 0 0 0 0 0 0.

Definition upd_volatile_mb (f : Q -> Q) (st : AcquisitionStats) : AcquisitionStats :=
  Build_AcquisitionStats
    (f (volatile_mb st)) (app_data_mb st) (media_mb st) (documents_mb st)
    (downloads_mb st) (system_mb st) (total_mb st) (processes_scanned st)
    (memory_maps_acquired st) (apps_processed st) (databases_acquired st)
    (photos_acquired st) (videos_acquired st) (audio_acquired st)
    (documents_acquired st) (total_files st) (failed_files st) (path_errors
    st) (extraction_errors st).

Definition upd_app_data_mb (f : Q -> Q) (st : AcquisitionStats) : AcquisitionStats :=
  Build_AcquisitionStats
    (volatile_mb st) (f (app_data_mb st)) (media_mb st) (documents_mb st)
    (downloads_mb st) (system_mb st) (total_mb st) (processes_scanned st)
    (memory_maps_acquired st) (apps_processed st) (databases_acquired st)
    (photos_acquired st) (videos_acquired st) (audio_acquired st)
    (documents_acquired st) (total_files st) (failed_files st) (path_errors
    st) (extraction_errors st).

Definition upd_media_mb (f : Q -> Q) (st : AcquisitionStats) : AcquisitionStats :=
  Build_AcquisitionStats
    (volatile_mb st) (app_data_mb st) (f (media_mb st)) (documents_mb st)
    (downloads_mb st) (system_mb st) (total_mb st) (processes_scanned st)
    (memory_maps_acquired st) (apps_processed st) (databases_acquired st)
    (photos_acquired st) (videos_acquired st) (audio_acquired st)
    (documents_acquired st) (total_files st) (failed_files st) (path_errors
    st) (extraction_errors st).

Definition upd_documents_mb (f : Q -> Q) (st : AcquisitionStats) : AcquisitionStats :=
  Build_AcquisitionStats
    (volatile_mb st) (app_data_mb st) (media_mb st) (f (documents_mb st))
    (downloads_mb st) (system_mb st) (total_mb st) (processes_scanned st)
    (memory_maps_acquired st) (apps_processed st) (databases_acquired st)
    (photos_acquired st) (videos_acquired st) (audio_acquired st)
    (documents_acquired st) (total_files st) (failed_files st) (path_errors
    st) (extraction_errors st).

Definition upd_downloads_mb (f : Q -> Q) (st : AcquisitionStats) : AcquisitionStats :=
  Build_AcquisitionStats
    (volatile_mb st) (app_data_mb st) (media_mb st) (documents_mb st) (f
    (downloads_mb st)) (system_mb st) (total_mb st) (processes_scanned st)
    (memory_maps_acquired st) (apps_processed st) (databases_acquired st)
    (photos_acquired st) (videos_acquired st) (audio_acquired st)
    (documents_acquired st) (total_files st) (failed_files st) (path_errors
    st) (extraction_errors st).

Definition upd_system_mb (f : Q -> Q) (st : AcquisitionStats) : AcquisitionStats :=
  Build_AcquisitionStats
    (volatile_mb st) (app_data_mb st) (media_mb st) (documents_mb st)
    (downloads_mb st) (f (system_mb st)) (total_mb st) (processes_scanned
    st) (memory_maps_acquired st) (apps_processed st) (databases_acquired
    st) (photos_acquired st) (videos_acquired st) (audio_acquired st)
    (documents_acquired st) (total_files st) (failed_files st) (path_errors
    st) (extraction_errors st).

Definition upd_total_mb (f : Q -> Q) (st : AcquisitionStats) : AcquisitionStats :=
  Build_AcquisitionStats
    (volatile_mb st) (app_data_mb st) (media_mb st) (documents_mb st)
    (downloads_mb st) (system_mb st) (f (total_mb st)) (processes_scanned
    st) (memory_maps_acquired st) (apps_processed st) (databases_acquired
    st) (photos_acquired st) (videos_acquired st) (audio_acquired st)
    (documents_acquired st) (total_files st) (failed_files st) (path_errors
    st) (extraction_errors st).

Definition upd_total_files (f : Z -> Z) (st : AcquisitionStats) : AcquisitionStats :=
  Build_AcquisitionStats
    (volatile_mb st) (app_data_mb st) (media_mb st) (documents_mb st)
    (downloads_mb st) (system_mb st) (total_mb st) (processes_scanned st)
    (memory_maps_acquired st) (apps_processed st) (databases_acquired st)
    (photos_acquired st) (videos_acquired st) (audio_acquired st)
    (documents_acquired st) (f (total_files st)) (failed_files st)
    (path_errors st) (extraction_errors st).

Definition upd_databases_acquired (f : Z -> Z) (st : AcquisitionStats) : AcquisitionStats :=
  Build_AcquisitionStats
    (volatile_mb st) (app_data_mb st) (media_mb st) (documents_mb st)
    (downloads_mb st) (system_mb st) (total_mb st) (processes_scanned st)
    (memory_maps_acquired st) (apps_processed st) (f (databases_acquired
    st)) (photos_acquired st) (videos_acquired st) (audio_acquired st)
    (documents_acquired st) (total_files st) (failed_files st) (path_errors
    st) (extraction_errors st).

Definition upd_failed_files (f : Z -> Z) (st : AcquisitionStats) : AcquisitionStats :=
  Build_AcquisitionStats
    (volatile_mb st) (app_data_mb st) (media_mb st) (documents_mb st)
    (downloads_mb st) (system_mb st) (total_mb st) (processes_scanned st)
    (memory_maps_acquired st) (apps_processed st) (databases_acquired st)
    (photos_acquired st) (videos_acquired st) (audio_acquired st)
    (documents_acquired st) (total_files st) (f (failed_files st))
    (path_errors st) (extraction_errors st).

Definition upd_path_errors (f : Z -> Z) (st : AcquisitionStats) : AcquisitionStats :=
  Build_AcquisitionStats
    (volatile_mb st) (app_data_mb st) (media_mb st) (documents_mb st)
    (downloads_mb st) (system_mb st) (total_mb st) (processes_scanned st)
    (memory_maps_acquired st) (apps_processed st) (databases_acquired st)
    (photos_acquired st) (videos_acquired st) (audio_acquired st)
    (documents_acquired st) (total_files st) (failed_files st) (f
    (path_errors st)) (extraction_errors st).

Definition upd_extraction_errors (f : Z -> Z) (st : AcquisitionStats) : AcquisitionStats :=
  Build_AcquisitionStats
    (volatile_mb st) (app_data_mb st) (media_mb st) (documents_mb st)
    (downloads_mb st) (system_mb st) (total_mb st) (processes_scanned st)
    (memory_maps_acquired st) (apps_processed st) (databases_acquired st)
    (photos_acquired st) (videos_acquired st) (audio_acquired st)
    (documents_acquired st) (total_files st) (failed_files st) (path_errors
    st) (f (extraction_errors st)).


Definition size_to_mb (st_size : N) : Q := (inject_Z (Z.of_N st_size) / 1024 / 1024)%Q.

(** ** More of Python's [str]: [strip], [int], [in], decimal rendering *)

(** [str.isspace] on the characters of the model. *)
Definition is_space (c : ascii) : bool :=
  let n := N_of_ascii c in
  ((9 <=? n) && (n <=? 13)) || ((28 <=? n) && (n <=? 32)) || (n =? 133) || (n =? 160).

Fixpoint lstrip (s : pystr) : pystr :=
  match s with
  | c :: s' => if is_space c then lstrip s' else s
  | [] => []
  end.

Definition strip (s : pystr) : pystr := rev (lstrip (rev (lstrip s))).

Definition digit_val (c : ascii) : option Z :=
  let n := N_of_ascii c in
  if (48 <=? n) && (n <=? 57) then Some (Z.of_N (n - 48)) else None.

(** Digits with single underscores between them, as [int] accepts. *)
Fixpoint parse_digits (acc : Z) (after_digit : bool) (s : pystr) : option Z :=
  match s with
  | [] => if after_digit then Some acc else None
  | c :: s' =>
      if Ascii.eqb c ch_underscore then
        if after_digit then parse_digits acc false s' else None
      else match digit_val c with
           | Some d => parse_digits (10 * acc + d) true s'
           | None => None
           end
  end.

(** [int(s)] in base 10; [None] is [ValueError]. *)
Definition py_int (s : pystr) : option Z :=
  match strip s with
  | c :: r =>
      if Ascii.eqb c "+"%char then parse_digits 0 false r
      else if Ascii.eqb c "-"%char then Z.opp <$> parse_digits 0 false r
      else parse_digits 0 false (c :: r)
  | [] => None
  end.

(** [needle in s] *)
Fixpoint contains (s needle : pystr) : bool :=
  startswith s needle ||
  match s with
  | [] => false
  | _ :: s' => contains s' needle
  end.

(** [str(n)] for an integer. *)
Definition str_of_int (n : Z) : pystr :=
  list_ascii_of_string (DecimalString.NilZero.string_of_int (Z.to_int n)).

(** ** Paths of the workstation ([pathlib.Path], POSIX flavour)

    A path is its string.  [local_base_dir / name] joins with one slash; the
    names joined here are outputs of [_sanitize_path], which have no empty and
    no dot component, so no further normalisation applies. *)

Definition path_join (base name : pystr) : pystr :=
  match name with
  | [] => base
  | _ => base ++ [ch_slash] ++ name
  end.

(** [p.parent] *)
Definition path_parent (p : pystr) : pystr :=
  match removelast (split_on ch_slash p) with
  | [] => [ch_dot]
  | ds => join [ch_slash] ds
  end.

(** ** The session object, the workstation and the device *)

(** The two copies of the engine.  They differ in the [self.log] calls only. *)
Inductive source_file := amat_data_collection | main.

(** Exceptions: [OSError] (with its subclasses) and every other [Exception]. *)
Inductive exception := OSError | OtherException.

Inductive log_message :=
  | MsgAdbTimeout (cmd : list pystr)
  | MsgCheckingRoot
  | MsgRootAvailable
  | MsgRootNotAvailable
  | MsgSkippedLargeFile (size_mb : Q) (filename : pystr)
  | MsgExtractionError (filename : pystr) (e : exception).

(** An entry of [self.log_entries] (the time stamp is left out). *)
Record log_entry := { level : pystr; message : log_message }.

(** The object [self]: the fields of [ProductionForensicAcquisition]
    ([ForensicAcquisition] in [main.py]) that the extraction reads or
    writes. *)
Record ForensicAcquisition := {
  stats : AcquisitionStats;
  log_entries : list log_entry;
  extracted_files : gset pystr;
  has_root : bool;
  temp_counter : Z
}.

(** What [subprocess.run] does for one [adb] command line. *)
Inductive adb_result :=
  | Completed (stdout : pystr) (returncode : Z)
  | TimeoutExpired
  | Failed (text : pystr).

Record adb_call := { cmd : list pystr; timeout : Z }.

(** The device bridge answers a command, and an [adb pull] may leave a file of
    [n] bytes at its destination ([pulled = Some n]). *)
Record adb_reply := { result : adb_result; pulled : option N }.

Inductive fs_op := op_exists | op_stat | op_mkdir | op_unlink | op_open.

(** The surroundings: the regular files of the workstation with their sizes,
    the operations the operating system refuses (and with which exception),
    the device bridge as a function of the commands it has received so far,
    and the record of those commands.  Directories are not kept track of:
    whether one can be created is up to [refuses], and the paths that the
    pipeline tests are regular files or absent. *)
Record World := {
  files : gmap pystr N;
  refuses : fs_op -> pystr -> option exception;
  device : list adb_call -> adb_call -> adb_reply;
  calls : list adb_call
}.

Record State := { self : ForensicAcquisition; world : World }.

Definition set_stats (f : AcquisitionStats -> AcquisitionStats) (a : ForensicAcquisition) :=
  {| stats := f (stats a); log_entries := log_entries a;
     extracted_files := extracted_files a; has_root := has_root a;
     temp_counter := temp_counter a |}.

Definition set_log_entries (f : list log_entry -> list log_entry) (a : ForensicAcquisition) :=
  {| stats := stats a; log_entries := f (log_entries a);
     extracted_files := extracted_files a; has_root := has_root a;
     temp_counter := temp_counter a |}.

Definition set_extracted_files (f : gset pystr -> gset pystr) (a : ForensicAcquisition) :=
  {| stats := stats a; log_entries := log_entries a;
     extracted_files := f (extracted_files a); has_root := has_root a;
     temp_counter := temp_counter a |}.

Definition set_has_root (b : bool) (a : ForensicAcquisition) :=
  {| stats := stats a; log_entries := log_entries a;
     extracted_files := extracted_files a; has_root := b;
     temp_counter := temp_counter a |}.

Definition set_temp_counter (f : Z -> Z) (a : ForensicAcquisition) :=
  {| stats := stats a; log_entries := log_entries a;
     extracted_files := extracted_files a; has_root := has_root a;
     temp_counter := f (temp_counter a) |}.

Definition set_files (f : gmap pystr N -> gmap pystr N) (w : World) :=
  {| files := f (files w); refuses := refuses w; device := device w; calls := calls w |}.

Definition set_calls (f : list adb_call -> list adb_call) (w : World) :=
  {| files := files w; refuses := refuses w; device := device w; calls := f (calls w) |}.

Definition on_self (f : ForensicAcquisition -> ForensicAcquisition) (s : State) : State :=
  {| self := f (self s); world := world s |}.

Definition on_world (f : World -> World) (s : State) : State :=
  {| self := self s; world := f (world s) |}.

(** ** The monad: state, and exceptions that keep the state *)

Inductive outcome (A : Type) := Ret (a : A) | Raise (e : exception).
Arguments Ret {A} a.
Arguments Raise {A} e.

Definition M (A : Type) : Type := State -> outcome A * State.

Definition ret {A} (a : A) : M A := fun s => (Ret a, s).

Definition bind {A B} (m : M A) (k : A -> M B) : M B :=
  fun s => match m s with
           | (Ret a, s') => k a s'
           | (Raise e, s') => (Raise e, s')
           end.

Definition raise {A} (e : exception) : M A := fun s => (Raise e, s).

Definition gets {A} (f : State -> A) : M A := fun s => (Ret (f s), s).

Definition modify (f : State -> State) : M unit := fun s => (Ret tt, f s).

(** [try: m  except Exception as e: h e] *)
Definition try_except {A} (m : M A) (h : exception -> M A) : M A :=
  fun s => match m s with
           | (Ret a, s') => (Ret a, s')
           | (Raise e, s') => h e s'
           end.

(** [try: m  except OSError as e: h e]; other exceptions pass through. *)
Definition try_except_OSError {A} (m : M A) (h : exception -> M A) : M A :=
  try_except m (fun e => match e with OSError => h e | _ => raise e end).

Declare Scope monad_scope.
Delimit Scope monad_scope with monad.
Notation "x <- c1 ;; c2" := (bind c1 (fun x => c2))
  (at level 100, c1 at next level, right associativity) : monad_scope.
Notation "c1 ;; c2" := (bind c1 (fun _ => c2))
  (at level 100, right associativity) : monad_scope.

Local Open Scope monad_scope.

(** ** File-system operations of the workstation *)

Definition guarded {A} (op : fs_op) (p : pystr) (m : M A) : M A :=
  fun s => match refuses (world s) op p with
           | Some e => (Raise e, s)
           | None => m s
           end.

(** [p.exists()] *)
Definition path_exists (p : pystr) : M bool :=
  guarded op_exists p (gets (fun s => bool_decide (is_Some (files (world s) !! p)))).

(** [p.stat().st_size] *)
Definition stat_size (p : pystr) : M N :=
  guarded op_stat p
    (fun s => match files (world s) !! p with
              | Some n => (Ret n, s)
              | None => (Raise OSError, s)
              end).

(** [p.mkdir(parents=True, exist_ok=True)] *)
Definition mkdir_parents (p : pystr) : M unit := guarded op_mkdir p (ret tt).

(** [p.unlink()] *)
Definition unlink (p : pystr) : M unit :=
  guarded op_unlink p
    (fun s => match files (world s) !! p with
              | Some _ => (Ret tt, on_world (set_files (delete p)) s)
              | None => (Raise OSError, s)
              end).

(** [with open(p, 'w', encoding='utf-8', errors='replace') as f: f.write(text)] *)
Definition write_text (p : pystr) (text : pystr) : M unit :=
  guarded op_open p
    (modify (on_world (set_files (<[p := N.of_nat (length (encode text))]>)))).

(** [a > b] on the megabyte values *)
Definition Qgt_bool (a b : Q) : bool := negb (Qle_bool a b).

(** [n += 1] *)
Definition incr (n : Z) : Z := (n + 1)%Z.

(** ** The methods of the engine *)

Section Engine.

Variable source : source_file.

(** [self.log(message, level)] (lines 149-160); what is printed is not
    modelled. *)
Definition log (msg : log_message) (lvl : pystr) : M unit :=
  modify (on_self (set_log_entries (fun l => l ++ [ {| level := lvl; message := msg |} ]))).

(** The local effect of a command line: only [pull src dst] writes. *)
Definition pull_effect (c : list pystr) (r : adb_reply) (fs : gmap pystr N) : gmap pystr N :=
  match c, pulled r with
  | [verb; _; dst], Some n => if bool_decide (verb = str "pull") then <[dst := n]> fs else fs
  | _, _ => fs
  end.

(** [self._adb(cmd, timeout)] (lines 204-224): never raises.  Only
    [amat_data_collection.py] logs a timeout. *)
Definition _adb (c : list pystr) (t : Z) : M (pystr * Z) :=
  w <- gets world ;;
  let call := {| cmd := c; timeout := t |} in
  let reply := device w (calls w) call in
  modify (on_world (fun w => set_calls (fun l => l ++ [call]) (set_files (pull_effect c reply) w))) ;;
  match result reply with
  | Completed stdout returncode => ret (stdout, returncode)
  | TimeoutExpired =>
      match source with
      | amat_data_collection => log (MsgAdbTimeout c) (str "WARNING")
      | main => ret tt
      end ;;
      ret ([], (-1)%Z)
  | Failed text => ret (str "Error: " ++ text, (-1)%Z)
  end.

(** [self._shell(cmd, as_root, timeout)] (lines 226-231) *)
Definition _shell (c : pystr) (as_root : bool) (t : Z) : M (pystr * Z) :=
  root <- gets (fun s => has_root (self s)) ;;
  if as_root && root then _adb [str "shell"; str "su"; str "-c"; c] t
  else _adb [str "shell"; c] t.

(** [self._get_file_size_mb(filepath)] (lines 233-238) *)
Definition _get_file_size_mb (filepath : pystr) : M Q :=
  try_except (st_size <- stat_size filepath ;; ret (size_to_mb st_size))
             (fun _ => ret 0%Q).

(** [self._add_to_stats(category, size_mb)] (lines 240-256) *)
Definition _add_to_stats (category : pystr) (size_mb : Q) : M unit :=
  let add := fun x => (x + size_mb)%Q in
  modify (on_self (set_stats (fun st =>
    let st :=
      if bool_decide (category = str "volatile") then upd_volatile_mb add st
      else if bool_decide (category = str "app_data") then upd_app_data_mb add st
      else if bool_decide (category = str "media") then upd_media_mb add st
      else if bool_decide (category = str "documents") then upd_documents_mb add st
      else if bool_decide (category = str "downloads") then upd_downloads_mb add st
      else if bool_decide (category = str "system") then upd_system_mb add st
      else st in
    upd_total_files incr (upd_total_mb add st)))).

(** [self.check_root_access()] (lines 262-275) *)
Definition check_root_access : M bool :=
  log MsgCheckingRoot (str "INFO") ;;
  r <- _adb [str "shell"; str "su"; str "-c"; str "id"] 5 ;;
  if (r.2 =? 0)%Z && contains r.1 (str "uid=0") then
    modify (on_self (set_has_root true)) ;;
    log MsgRootAvailable (str "SUCCESS") ;;
    ret true
  else
    modify (on_self (set_has_root false)) ;;
    log MsgRootNotAvailable (str "WARNING") ;;
    ret false.

(** [code == 0 and local_file.exists() and local_file.stat().st_size > 0] *)
Definition pulled_ok (code : Z) (local_file : pystr) : M bool :=
  if (code =? 0)%Z then
    e <- path_exists local_file ;;
    if e then (sz <- stat_size local_file ;; ret (0 <? sz)) else ret false
  else ret false.

(** Method 1: direct pull (for accessible files), lines 440-442. *)
Definition method1 (remote_path local_file : pystr) : M bool :=
  r <- _adb [str "pull"; remote_path; local_file] Config.PULL_TIMEOUT ;;
  pulled_ok r.2 local_file.

Definition temp_path_of (counter : Z) (filename : pystr) : pystr :=
  let temp_name :=
    str "amat_" ++ str_of_int counter ++ str "_" ++ md5_hex8 filename ++ str ".tmp" in
  str "/sdcard/Download/" ++ temp_name.

Definition quoted (s : pystr) : pystr := str "'" ++ s ++ str "'".

(** Method 2: root copy to a temporary location, pull, clean up
    (lines 446-462). *)
Definition method2 (remote_path filename local_file : pystr) : M bool :=
  modify (on_self (set_temp_counter incr)) ;;
  counter <- gets (fun s => temp_counter (self s)) ;;
  let temp_path := temp_path_of counter filename in
  _shell (str "cp " ++ quoted remote_path ++ str " " ++ quoted temp_path) true 30 ;;
  _shell (str "chmod 644 " ++ quoted temp_path) true 5 ;;
  r <- _adb [str "pull"; temp_path; local_file] Config.PULL_TIMEOUT ;;
  _shell (str "rm " ++ quoted temp_path) true 5 ;;
  pulled_ok r.2 local_file.

Definition stat_cmd (remote_path : pystr) : pystr :=
  str "stat -c %s " ++ quoted remote_path ++ str " 2>/dev/null".

Definition cat_cmd (remote_path : pystr) : pystr :=
  str "cat " ++ quoted remote_path ++ str " 2>/dev/null".

Definition inline_limit : Z := 5 * 1024 * 1024.

(** Method 3: direct cat for small files (lines 467-479).  The inner
    [try ... except: pass] swallows every exception raised after the size
    query. *)
Definition method3 (remote_path local_file : pystr) : M bool :=
  root <- gets (fun s => has_root (self s)) ;;
  size <- _shell (stat_cmd remote_path) root 30 ;;
  try_except
    (match py_int (strip size.1) with
     | None => raise OtherException
     | Some file_size =>
         if (0 <? file_size)%Z && (file_size <? inline_limit)%Z then
           r <- _shell (cat_cmd remote_path) root 30 ;;
           if (r.2 =? 0)%Z && negb (bool_decide (r.1 = [])) then
             write_text local_file r.1 ;;
             sz <- stat_size local_file ;;
             ret (0 <? sz)
           else ret false
         else ret false
     end)
    (fun _ => ret false).

Definition is_private (remote_path : pystr) : bool :=
  startswith remote_path (str "/data/data/") || startswith remote_path (str "/data/user/").

(** The three methods in their order, each under its [if] (lines 436-479). *)
Definition run_methods (remote_path filename local_file : pystr) : M bool :=
  success <- (if negb (startswith remote_path (str "/data/data/"))
                 && negb (startswith remote_path (str "/data/user/"))
              then method1 remote_path local_file else ret false) ;;
  root <- gets (fun s => has_root (self s)) ;;
  success <- (if negb success && root
              then method2 remote_path filename local_file else ret success) ;;
  if negb success then method3 remote_path local_file else ret success.

Definition is_database (remote_path : pystr) : bool :=
  endswith remote_path (str ".db") || endswith remote_path (str ".sqlite")
  || endswith remote_path (str ".db-wal") || endswith remote_path (str ".db-shm").

(** "Verify success": what follows the three methods (lines 482-504). *)
Definition verify (success : bool) (remote_path filename local_file category : pystr)
  : M bool :=
  e <- (if success then path_exists local_file else ret false) ;;
  if e then
    size_mb <- _get_file_size_mb local_file ;;
    if Qeq_bool size_mb 0 then
      unlink local_file ;; ret false
    else if Qgt_bool Config.MAX_FILE_SIZE_MB 0
            && Qgt_bool size_mb Config.MAX_FILE_SIZE_MB then
      unlink local_file ;;
      match source with
      | amat_data_collection => log (MsgSkippedLargeFile size_mb filename) (str "DEBUG")
      | main => ret tt
      end ;;
      ret false
    else
      _add_to_stats category size_mb ;;
      modify (on_self (set_extracted_files (fun x => x ∪ {[remote_path]}))) ;;
      (if is_database remote_path
       then modify (on_self (set_stats (upd_databases_acquired incr)))
       else ret tt) ;;
      ret true
  else
    modify (on_self (set_stats (upd_failed_files incr))) ;;
    ret false.

(** The local target of a device path (lines 410-420). *)
Definition local_target (remote_path local_base_dir : pystr) (flatten : bool) : pystr :=
  let filename := basename remote_path in
  let safe_filename := _sanitize_path filename in
  if flatten then path_join local_base_dir safe_filename
  else path_join local_base_dir (_sanitize_path (lstrip_slash remote_path)).

(** The body of the [try] of [_extract_file_production] (lines 405-504);
    [again] is the function itself, for the flattened retry of line 433. *)
Definition pipeline (again : pystr -> pystr -> pystr -> bool -> M bool)
    (remote_path local_base_dir category : pystr) (flatten : bool) : M bool :=
  extracted <- gets (fun s => extracted_files (self s)) ;;
  if bool_decide (remote_path ∈ extracted) then ret false else
  let filename := basename remote_path in
  let local_file := local_target remote_path local_base_dir flatten in
  e <- path_exists local_file ;;
  present <- (if e then (sz <- stat_size local_file ;; ret (0 <? sz)) else ret false) ;;
  if present then ret false else
  created <- try_except_OSError
               (mkdir_parents (path_parent local_file) ;; ret true)
               (fun _ => modify (on_self (set_stats (upd_path_errors incr))) ;;
                         ret false) ;;
  if negb created then
    if negb flatten then again remote_path local_base_dir category true else ret false
  else
    success <- run_methods remote_path filename local_file ;;
    verify success remote_path filename local_file category.

(** The [except Exception as e] of [_extract_file_production] (lines
    506-510); [main.py] has the first and the last line of it only. *)
Definition on_exception (remote_path : pystr) (e : exception) : M bool :=
  modify (on_self (set_stats (upd_extraction_errors incr))) ;;
  match source with
  | amat_data_collection =>
      errors <- gets (fun s => extraction_errors (stats (self s))) ;;
      if Config.VERBOSE && (errors <? 10)%Z
      then log (MsgExtractionError (basename remote_path) e) (str "DEBUG")
      else ret tt
  | main => ret tt
  end ;;
  ret false.

Definition extract_with (again : pystr -> pystr -> pystr -> bool -> M bool)
    (remote_path local_base_dir category : pystr) (flatten : bool) : M bool :=
  try_except (pipeline again remote_path local_base_dir category flatten)
             (on_exception remote_path).

(** [self._extract_file_production(remote_path, local_base_dir, category,
    flatten)].  The function calls itself only with [flatten=True], and a
    call with [flatten=True] does not call itself, so two unfoldings tie the
    recursion (see [_extract_file_production_unfold]). *)
Definition _extract_file_production
    (remote_path local_base_dir category : pystr) (flatten : bool) : M bool :=
  extract_with (extract_with (fun _ _ _ _ => ret false))
               remote_path local_base_dir category flatten.

End Engine.

(** ** Statements and inputs used below *)

(** The property as the specification words it: two distinct inputs that
    share their first [MAX_PATH_LENGTH - 10] characters have different
    outputs. *)
Definition truncation_never_collides : Prop :=
  forall p q : pystr,
    (190 <= length p)%nat -> (190 <= length q)%nat ->
    p <> q -> take 190 p = take 190 q ->
    _sanitize_path p <> _sanitize_path q.

Definition long_prefix : pystr := concat (repeat (str "ddddddddd/") 19).
Definition colliding_path_1 : pystr := long_prefix ++ str "file:1111111".
Definition colliding_path_2 : pystr := long_prefix ++ str "file?1111111".

Definition distinct_path_1 : pystr := long_prefix ++ str "file_1111111".
Definition distinct_path_2 : pystr := long_prefix ++ str "file_2222222".


(** ** Vocabulary for the statements about the engine *)

(** The pair [_adb] returns for an outcome of [subprocess.run]. *)
Definition adb_return (r : adb_result) : pystr * Z :=
  match r with
  | Completed stdout returncode => (stdout, returncode)
  | TimeoutExpired => ([], (-1)%Z)
  | Failed text => (str "Error: " ++ text, (-1)%Z)
  end.

(** The answer of the device to [c] in the world [w]. *)
Definition answer (w : World) (c : adb_call) : adb_reply := device w (calls w) c.

(** The workstation reports a file of non-zero size at [p]: this is the
    test [p.exists() and p.stat().st_size > 0] evaluating to [True]. *)
Definition reports_nonempty (w : World) (p : pystr) : Prop :=
  refuses w op_exists p = None /\ refuses w op_stat p = None
  /\ exists n, files w !! p = Some n /\ 0 < n.

(** One request to the engine. *)
Record request := {
  remote_path : pystr;
  local_base_dir : pystr;
  category : pystr;
  flatten : bool
}.

Definition extract (source : source_file) (r : request) : M bool :=
  _extract_file_production source
    (remote_path r) (local_base_dir r) (category r) (flatten r).

(** What the engine itself does in a session: extractions and root checks. *)
Inductive engine_step (source : source_file) : State -> State -> Prop :=
  | step_extract r s :
      engine_step source s (extract source r s).2
  | step_check_root s :
      engine_step source s (check_root_access source s).2.

Definition engine_run (source : source_file) : State -> State -> Prop :=
  rtc (engine_step source).

(** [self.stats.photos_acquired += 1] (line 640) *)
Definition upd_photos_acquired (f : Z -> Z) (st : AcquisitionStats) : AcquisitionStats :=
  Build_AcquisitionStats
    (volatile_mb st) (app_data_mb st) (media_mb st) (documents_mb st)
    (downloads_mb st) (system_mb st) (total_mb st) (processes_scanned st)
    (memory_maps_acquired st) (apps_processed st) (databases_acquired st)
    (f (photos_acquired st)) (videos_acquired st) (audio_acquired st)
    (documents_acquired st) (total_files st) (failed_files st) (path_errors st)
    (extraction_errors st).

(** What the acquisition methods ([acquire_volatile_memory], [acquire_media],
    [acquire_documents], ...) write to [self] around their calls of the
    engine: fields of [self.stats] ([_add_to_stats] at line 351,
    [self.stats.photos_acquired += 1] at line 640, [documents_acquired] at
    line 737, ...) and, through [self.log], new entries of the log.  They
    write neither [extracted_files] nor [has_root] nor [temp_counter]; the
    statistics they leave are any [st]. *)
Definition caller_writes (st : AcquisitionStats) (entries : list log_entry) (s : State)
  : State :=
  on_self (fun a => set_log_entries (fun l => l ++ entries) (set_stats (fun _ => st) a)) s.

(** What happens in a session: steps of the engine, writes of the
    acquisition methods to [self], and changes of the surroundings that the
    engine does not control (the files of the workstation, which the
    acquisition methods write too, the device and the commands that the
    acquisition methods send to it). *)
Inductive session_step (source : source_file) : State -> State -> Prop :=
  | step_engine s s' :
      engine_step source s s' -> session_step source s s'
  | step_caller s st entries :
      session_step source s (caller_writes st entries s)
  | step_surroundings s w :
      session_step source s {| self := self s; world := w |}.

Definition session_run (source : source_file) : State -> State -> Prop :=
  rtc (session_step source).

(** A session in which the non-empty file at [T], once the workstation
    reports it, is not removed or emptied from outside the engine: steps of
    the engine, writes of the acquisition methods to [self], and changes of
    the surroundings after which the workstation still reports a non-empty
    file at [T] if it did before. *)
Inductive keeping_step (source : source_file) (T : pystr) : State -> State -> Prop :=
  | keep_engine s s' :
      engine_step source s s' -> keeping_step source T s s'
  | keep_caller s st entries :
      keeping_step source T s (caller_writes st entries s)
  | keep_surroundings s w :
      (reports_nonempty (world s) T -> reports_nonempty w T) ->
      keeping_step source T s {| self := self s; world := w |}.

Definition keeping_run (source : source_file) (T : pystr) : State -> State -> Prop :=
  rtc (keeping_step source T).

(** [m] changes the state only along the relation [R]. *)
Definition keeps (R : State -> State -> Prop) {A} (m : M A) : Prop :=
  forall s, R s (m s).2.

(** The extracted-path set only grows. *)
Definition extracted_grows (s s' : State) : Prop :=
  extracted_files (self s) ⊆ extracted_files (self s').



(** The dedup property as the specification words it: of two calls in a row
    for the same device path, the second returns false and leaves the
    statistics as they are. *)
Definition second_call_is_a_no_op : Prop :=
  forall source r s,
    let s1 := (extract source r s).2 in
    (extract source r s1).1 = Ret false
    /\ stats (self (extract source r s1).2) = stats (self s1).

(** *** Sample sessions and surroundings *)

Definition fresh : ForensicAcquisition :=
  {| stats := stats_init; log_entries := []; extracted_files := ∅;
     has_root := false; temp_counter := 0 |}.

(** A device bridge that answers nothing useful. *)
Definition dead_device : list adb_call -> adb_call -> adb_reply :=
  fun _ _ => {| result := Failed []; pulled := None |}.

(** A device bridge whose first command fails and whose later pulls deliver
    a file of 100 bytes. *)
Definition late_device : list adb_call -> adb_call -> adb_reply :=
  fun history _ =>
    match history with
    | [] => {| result := Completed [] 1; pulled := None |}
    | _ => {| result := Completed [] 0; pulled := Some 100 |}
    end.

(** A device bridge whose pulls deliver a file of [n] bytes. *)
Definition good_device (n : N) : list adb_call -> adb_call -> adb_reply :=
  fun _ _ => {| result := Completed [] 0; pulled := Some n |}.

Definition no_refusal : fs_op -> pystr -> option exception := fun _ _ => None.


Definition start (refusals : fs_op -> pystr -> option exception)
    (dev : list adb_call -> adb_call -> adb_reply) : State :=
  {| self := fresh;
     world := {| files := ∅; refuses := refusals; device := dev; calls := [] |} |}.

Definition photo_request : request :=
  {| remote_path := str "/sdcard/DCIM/img1.jpg";
     local_base_dir := str "case/04_MEDIA/photos";
     category := str "media"; flatten := true |}.

(** Every run of [m] ends in an outcome and a state that satisfy [Q]. *)
Definition ensures {A} (Q : outcome A -> State -> Prop) (m : M A) : Prop :=
  forall s, Q (m s).1 (m s).2.

(** When the answer is [True], the device path is in the extracted set. *)
Definition true_means_recorded (remote_path : pystr) (o : outcome bool) (s : State) : Prop :=
  o = Ret true -> remote_path ∈ extracted_files (self s).

Definition other_request : request :=
  {| remote_path := str "/sdcard/Download/report.pdf";
     local_base_dir := str "case/06_DOWNLOADS";
     category := str "downloads"; flatten := true |}.

(** A session that has pulled the photo; then [acquire_media] has counted
    it; then the session has checked for root and pulled another file. *)
Definition after_photo : State :=
  (extract amat_data_collection photo_request (start no_refusal (good_device 2097152))).2.

Definition photo_counted : State :=
  caller_writes (upd_photos_acquired incr (stats (self after_photo))) [] after_photo.

Definition later_on : State :=
  (extract amat_data_collection other_request
     (check_root_access amat_data_collection photo_counted).2).2.

(** A workstation that already holds the photo. *)
Definition resumed : State :=
  {| self := fresh;
     world := {| files := {[ str "case/04_MEDIA/photos/img1.jpg" := 2097152 ]};
                 refuses := no_refusal; device := dead_device; calls := [] |} |}.

(** What the three methods leave alone: the statistics, the extracted set,
    the root flag, and the behaviour of workstation and device. *)
Definition bookkeeping_untouched (s s' : State) : Prop :=
  stats (self s') = stats (self s)
  /\ extracted_files (self s') = extracted_files (self s)
  /\ has_root (self s') = has_root (self s)
  /\ refuses (world s') = refuses (world s)
  /\ device (world s') = device (world s).

(** The early tests of the pipeline let the call through to the methods:
    the path is not a duplicate, the workstation reports no non-empty file
    at the target, and the parent directory can be created. *)
Definition lets_through (s : State) (remote_path local_file : pystr) : Prop :=
  (remote_path ∉ extracted_files (self s))
  /\ refuses (world s) op_exists local_file = None
  /\ (files (world s) !! local_file = None
      \/ (files (world s) !! local_file = Some 0 /\ refuses (world s) op_stat local_file = None))
  /\ refuses (world s) op_mkdir (path_parent local_file) = None.

(** The workstation reports a file above the size ceiling at [p]. *)
Definition reports_oversized (w : World) (p : pystr) (n : N) : Prop :=
  refuses w op_stat p = None /\ files w !! p = Some n
  /\ (Config.MAX_FILE_SIZE_MB < size_to_mb n)%Q.

(** The sentence of the specification on oversized results, as far as the
    statistics go: an extraction that ends with an oversized file is counted
    somewhere, so the statistics after the call differ from those before. *)
Definition oversized_is_counted : Prop :=
  forall source r b c f s s1 n,
    let l := local_target r b f in
    lets_through s r l ->
    run_methods source r (basename r) l s = (Ret true, s1) ->
    reports_oversized (world s1) l n ->
    refuses (world s1) op_unlink l = None ->
    stats (self (_extract_file_production source r b c f s).2) <> stats (self s).

(** 600 MiB *)
Definition huge : N := 600 * 1024 * 1024.

Definition skipped_entry (n : N) (filename : pystr) : log_entry :=
  {| level := str "DEBUG"; message := MsgSkippedLargeFile (size_to_mb n) filename |}.

(** Where a successful call leaves the file: the target of the call, or the
    flattened target when the directories of a structured target could not
    be created. *)
Definition stored_target (w : World) (remote_path local_base_dir : pystr) (flatten : bool)
  : pystr :=
  if flatten then local_target remote_path local_base_dir true
  else match refuses w op_mkdir (path_parent (local_target remote_path local_base_dir false)) with
       | Some OSError => local_target remote_path local_base_dir true
       | _ => local_target remote_path local_base_dir false
       end.

(** The flattened retry is taken: the call has [flatten=False] and creating
    the parent directory of the structured target raises [OSError]. *)
Definition retried (w : World) (remote_path local_base_dir : pystr) (flatten : bool) : bool :=
  negb flatten
  && match refuses w op_mkdir (path_parent (local_target remote_path local_base_dir false)) with
     | Some OSError => true
     | _ => false
     end.

(** The state in which the methods of a call start: the state of the call,
    with [path_errors] incremented when the flattened retry is taken. *)
Definition methods_start (s : State) (remote_path local_base_dir : pystr) (flatten : bool)
  : State :=
  if retried (world s) remote_path local_base_dir flatten
  then on_self (set_stats (upd_path_errors incr)) s
  else s.

(** The call gets to its methods: either its early tests let it through, or
    it has [flatten=False], passes the two skip tests, cannot create the
    parent directory of the structured target, and the early tests of the
    flattened retry let it through. *)
Definition reaches_methods (s : State) (remote_path local_base_dir : pystr) (flatten : bool)
  : Prop :=
  lets_through s remote_path (local_target remote_path local_base_dir flatten)
  \/ (flatten = false
      /\ (remote_path ∉ extracted_files (self s))
      /\ refuses (world s) op_exists (local_target remote_path local_base_dir false) = None
      /\ (files (world s) !! local_target remote_path local_base_dir false = None
          \/ (files (world s) !! local_target remote_path local_base_dir false = Some 0
              /\ refuses (world s) op_stat (local_target remote_path local_base_dir false)
                 = None))
      /\ refuses (world s) op_mkdir
           (path_parent (local_target remote_path local_base_dir false)) = Some OSError
      /\ lets_through (on_self (set_stats (upd_path_errors incr)) s) remote_path
           (local_target remote_path local_base_dir true)).

(** A non-empty file the workstation reports at [T] stays as it is. *)
Definition target_kept (T : pystr) (s s' : State) : Prop :=
  reports_nonempty (world s) T ->
  refuses (world s') = refuses (world s) /\ files (world s') !! T = files (world s) !! T.

(** When the answer is [True], the workstation reports a non-empty file. *)
Definition true_means_stored (l : pystr) (o : outcome bool) (s : State) : Prop :=
  o = Ret true -> reports_nonempty (world s) l.

Definition photo_a : request :=
  {| remote_path := str "/sdcard/DCIM/Camera/img1.jpg";
     local_base_dir := str "case/04_MEDIA/photos";
     category := str "media"; flatten := true |}.

Definition photo_b : request :=
  {| remote_path := str "/sdcard/Pictures/img1.jpg";
     local_base_dir := str "case/04_MEDIA/photos";
     category := str "media"; flatten := true |}.

(** [acquire_media] after the first photo: the file is stored, and the
    loop has counted it (line 640). *)
Definition photo_a_counted : State :=
  caller_writes
    (upd_photos_acquired incr
       (stats (self (extract main photo_a (start no_refusal (good_device 2097152))).2)))
    []
    (extract main photo_a (start no_refusal (good_device 2097152))).2.

(** *** The commands of the three methods, and the world they leave *)

Definition direct_call (remote_path local_file : pystr) : adb_call :=
  {| cmd := [str "pull"; remote_path; local_file]; timeout := Config.PULL_TIMEOUT |}.

Definition shell_call (su : bool) (c : pystr) (t : Z) : adb_call :=
  {| cmd := if su then [str "shell"; str "su"; str "-c"; c] else [str "shell"; c];
     timeout := t |}.

Definition staged_calls (remote_path temp_path local_file : pystr) : list adb_call :=
  [ shell_call true (str "cp " ++ quoted remote_path ++ str " " ++ quoted temp_path) 30;
    shell_call true (str "chmod 644 " ++ quoted temp_path) 5;
    direct_call temp_path local_file;
    shell_call true (str "rm " ++ quoted temp_path) 5 ].

Definition stat_call (su : bool) (remote_path : pystr) : adb_call :=
  shell_call su (stat_cmd remote_path) 30.

Definition cat_call (su : bool) (remote_path : pystr) : adb_call :=
  shell_call su (cat_cmd remote_path) 30.

(** The world after the device bridge has answered [c]. *)
Definition world_after (w : World) (c : adb_call) : World :=
  set_calls (fun l => l ++ [c]) (set_files (pull_effect (cmd c) (answer w c)) w).

(** The world after a sequence of commands. *)
Definition replay (w : World) (tr : list adb_call) : World := fold_left world_after tr w.

Definition stdout_of (w : World) (c : adb_call) : pystr := (adb_return (result (answer w c))).1.
Definition code_of (w : World) (c : adb_call) : Z := (adb_return (result (answer w c))).2.

(** A pull has succeeded: status 0, and a non-empty file reported afterwards. *)
Definition pull_succeeded (w : World) (c : adb_call) (w_after : World) (local_file : pystr)
  : Prop :=
  code_of w c = 0%Z /\ reports_nonempty w_after local_file.

(** The size that the stat command reports lets the inline read go ahead. *)
Definition size_allows_inline (stdout : pystr) : Prop :=
  exists n : Z, py_int (strip stdout) = Some n /\ (0 < n)%Z /\ (n < 5 * 1024 * 1024)%Z.

(** A rooted device whose pulls fail but which reports a size of 12 bytes
    and prints the content of the file. *)
Definition cat_only_device : list adb_call -> adb_call -> adb_reply :=
  fun _ c =>
    match cmd c with
    | [_; _; _; c'] =>
        if startswith c' (str "stat") then {| result := Completed (str "12" ++ [ascii_of_N 10]) 0; pulled := None |}
        else if startswith c' (str "cat") then {| result := Completed (str "hello, world") 0; pulled := None |}
        else {| result := Completed [] 0; pulled := None |}
    | _ => {| result := Completed [] 1; pulled := None |}
    end.

Definition rooted (s : State) : State := on_self (set_has_root true) s.

Definition private_db : pystr := str "/data/data/com.x/databases/chat.db".

(** A path whose second part fills the characters 90 to 189 of the joined
    string. *)
Definition long_component_path : pystr :=
  repeat "a"%char 89 ++ [ch_slash] ++ repeat "b"%char 100 ++ [ch_slash] ++ repeat "c"%char 10.

(** *** The guarantees of a local path *)

(** One of the ten characters of [invalid_chars]. *)
Definition is_invalid (c : ascii) : bool := existsb (Ascii.eqb c) invalid_chars.

(** A lower-case hexadecimal digit. *)
Definition is_hex (c : ascii) : bool :=
  let n := N_of_ascii c in
  ((48 <=? n) && (n <=? 57)) || ((97 <=? n) && (n <=? 102)).

(** What [replace] does to one character, for the ten characters in turn. *)
Definition clean_char (c : ascii) : ascii :=
  fold_left (fun c char => if Ascii.eqb c char then ch_underscore else c) invalid_chars c.

(** A component of a local path: at most [bound] characters, no leading dot. *)
Definition component_ok (bound : nat) (comp : pystr) : Prop :=
  (length comp <= bound)%nat /\ startswith comp [ch_dot] = false.

(** A part as the loop of the sanitizer leaves it, or a prefix of one. *)
Definition part_ok (w : pystr) : Prop :=
  (ch_slash ∉ w) /\ component_ok 100 w /\ Forall (fun c => is_invalid c = false) w.

(** Appending a suffix to the last part. *)
Definition extend_last (parts : list pystr) (suffix : pystr) : list pystr :=
  match parts with
  | [] => [suffix]
  | _ => removelast parts ++ [List.last parts [] ++ suffix]
  end.

(** A workstation on which one directory cannot be created. *)
Definition deep_refused : fs_op -> pystr -> option exception :=
  fun op p =>
    match op with
    | op_mkdir =>
        if bool_decide (p = str "case/02_APP_DATA/sdcard/DCIM") then Some OSError else None
    | _ => None
    end.

Definition nested_request : request :=
  {| remote_path := str "/sdcard/DCIM/img1.jpg";
     local_base_dir := str "case/02_APP_DATA";
     category := str "app_data"; flatten := false |}.

Definition path_600 : pystr := concat (repeat (str "/abcdefghi") 60).

(** No command is sent to the device bridge. *)
Definition same_calls (s s' : State) : Prop := calls (world s') = calls (world s).

(** ** Further code of the two files: names derived from sanitized paths,
    listings, loops over the extraction *)

(** [safe_name] of [acquire_volatile_memory] (lines 364-365): the process
    name, sanitized, with its slashes replaced and cut to 50 characters; it
    becomes part of the file name [maps_<pid>_<safe_name>.txt]. *)
Definition maps_safe_name (name : pystr) : pystr :=
  py_take 50 (replace_char ch_slash ch_underscore (_sanitize_path name)).

(** [safe_name] of [_acquire_app_directory] (line 552): the directory of an
    application under [02_APP_DATA]. *)
Definition app_safe_name (package : pystr) : pystr :=
  py_take 100 (_sanitize_path package).

Definition ch_newline : ascii := ascii_of_N 10.

(** [[f.strip() for f in stdout.strip().split('\n') if f.strip()]]: the
    listing of a [find] command as the acquisition methods read it (lines
    581, 590, 628, 656, 685, 726, 754, 799, 821, 833, 880). *)
Fixpoint stripped_lines (lines : list pystr) : list pystr :=
  match lines with
  | [] => []
  | f :: rest =>
      match strip f with
      | [] => stripped_lines rest
      | _ => strip f :: stripped_lines rest
      end
  end.

Definition listed_files (stdout : pystr) : list pystr :=
  stripped_lines (split_on ch_newline (strip stdout)).

(** [for file_path in files: self._extract_file_production(file_path,
    local_dir, category, flatten)]: the loop of lines 596-597, 881-882 and
    952-953. *)
Fixpoint extract_each (source : source_file) (files : list pystr)
    (local_dir category : pystr) (flatten : bool) : M unit :=
  match files with
  | [] => ret tt
  | file_path :: rest =>
      _extract_file_production source file_path local_dir category flatten ;;
      extract_each source rest local_dir category flatten
  end.

(** *** Vocabulary of the further statements *)

(** A command that asks for root: [adb shell su -c ...]. *)
Definition is_su_call (c : adb_call) : bool :=
  match cmd c with
  | first :: second :: _ => bool_decide (first = str "shell") && bool_decide (second = str "su")
  | _ => false
  end.

(** The seven megabyte totals, and the twelve counters. *)
Definition size_totals (st : AcquisitionStats) : list Q :=
  [volatile_mb st; app_data_mb st; media_mb st; documents_mb st; downloads_mb st;
   system_mb st; total_mb st].

Definition counters (st : AcquisitionStats) : list Z :=
  [processes_scanned st; memory_maps_acquired st; apps_processed st;
   databases_acquired st; photos_acquired st; videos_acquired st; audio_acquired st;
   documents_acquired st; total_files st; failed_files st; path_errors st;
   extraction_errors st].

(** Each total and each counter of [st'] is at least that of [st]. *)
Definition stats_le (st st' : AcquisitionStats) : Prop :=
  Forall2 Qle (size_totals st) (size_totals st')
  /\ Forall2 Z.le (counters st) (counters st').

(** The statistics and the staging counter do not decrease. *)
Definition stats_grow (s s' : State) : Prop :=
  stats_le (stats (self s)) (stats (self s'))
  /\ (temp_counter (self s) <= temp_counter (self s'))%Z.


(** The grand total is the sum of the six category totals. *)
Definition balanced (st : AcquisitionStats) : Prop :=
  (total_mb st == volatile_mb st + app_data_mb st + media_mb st
                  + documents_mb st + downloads_mb st + system_mb st)%Q.

(** A device bridge whose pulls write 4096 bytes and then report a failure,
    and whose other commands fail. *)
Definition truncating_device : list adb_call -> adb_call -> adb_reply :=
  fun _ c =>
    match cmd c with
    | [_; _; _] => {| result := Completed [] 1; pulled := Some 4096 |}
    | _ => {| result := Completed [] 1; pulled := None |}
    end.

(** What a call for [remote_path] that ends with [o] in [s'] has done to the
    books of [s]: a success has added the path and counted one file (and one
    database, by the suffix of the path); anything else has left the
    extracted set, the file and database counts and the megabyte totals
    alone. *)
Definition accounted (remote_path : pystr) (s : State) (o : outcome bool) (s' : State)
  : Prop :=
  let st := stats (self s) in
  let st' := stats (self s') in
  match o with
  | Ret true =>
      (remote_path ∉ extracted_files (self s))
      /\ extracted_files (self s') = extracted_files (self s) ∪ {[remote_path]}
      /\ total_files st' = (total_files st + 1)%Z
      /\ databases_acquired st'
         = (databases_acquired st + if is_database remote_path then 1 else 0)%Z
      /\ failed_files st' = failed_files st
      /\ extraction_errors st' = extraction_errors st
  | _ =>
      extracted_files (self s') = extracted_files (self s)
      /\ total_files st' = total_files st
      /\ databases_acquired st' = databases_acquired st
      /\ size_totals st' = size_totals st
  end.

(** When the answer is [True], the workstation holds a file at [l] that is
    not empty and not above the size ceiling, and the grand total of [s'] is
    that of [s] plus the size of this file. *)
Definition sized (l : pystr) (s : State) (o : outcome bool) (s' : State) : Prop :=
  o = Ret true ->
  exists n, files (world s') !! l = Some n /\ 0 < n
            /\ (size_to_mb n <= Config.MAX_FILE_SIZE_MB)%Q
            /\ total_mb (stats (self s')) = (total_mb (stats (self s)) + size_to_mb n)%Q.

(** A balanced state stays balanced. *)
Definition stays_balanced (s s' : State) : Prop :=
  balanced (stats (self s)) -> balanced (stats (self s')).

(** No command is sent, and [has_root] stays as it is. *)
Definition quiet (s s' : State) : Prop :=
  calls (world s') = calls (world s) /\ has_root (self s') = has_root (self s).

(** Without root before and after, and with no command in between that
    asks for it; [n] bounds the number of commands. *)
Definition unprivileged (n : nat) (s s' : State) : Prop :=
  has_root (self s') = false
  /\ exists t, calls (world s') = calls (world s) ++ t
               /\ Forall (fun c => is_su_call c = false) t
               /\ (length t <= n)%nat.

(** A string that is empty or begins with a character that is no space. *)
Definition starts_solid (s : pystr) : Prop :=
  match s with
  | [] => True
  | c :: _ => is_space c = false
  end.

(** The workstation's entry for the path [T] is as it was. *)
Definition file_untouched (T : pystr) (s s' : State) : Prop :=
  files (world s') !! T = files (world s) !! T.

(** The staging counter is as it was. *)
Definition counter_kept (s s' : State) : Prop :=
  temp_counter (self s') = temp_counter (self s).

(** The log of [s'] is the log of [s] with entries appended, each a warning
    or a debug entry; the engine of [main.py] appends none. *)
Definition log_extends (source : source_file) (s s' : State) : Prop :=
  exists entries,
    log_entries (self s') = log_entries (self s) ++ entries
    /\ Forall (fun e => level e = str "WARNING" \/ level e = str "DEBUG") entries
    /\ (source = main -> entries = []).

(** The root flag and the staging counter are as they were. *)
Definition flags_kept (s s' : State) : Prop :=
  has_root (self s') = has_root (self s)
  /\ temp_counter (self s') = temp_counter (self s).

(** The root flag is as it was, and the staging counter has moved by at most
    one, and only with root. *)
Definition one_staging (s s' : State) : Prop :=
  has_root (self s') = has_root (self s)
  /\ (temp_counter (self s') = temp_counter (self s)
      \/ (has_root (self s) = true
          /\ temp_counter (self s') = (temp_counter (self s) + 1)%Z)).


(** * Properties *)

(** ** The sanitizer: length and hash suffix *)

Lemma length_le_bytes k x : length (MD5.le_bytes k x) = k.
Proof. revert x. induction k as [|k IH]; intros x; simpl; [done | by rewrite IH]. Qed.

Lemma length_flat_map_hex_byte l : length (flat_map MD5.hex_byte l) = (2 * length l)%nat.
Proof. induction l as [|b l IH]; simpl; [done | rewrite IH; lia]. Qed.

Lemma length_hexdigest msg : length (MD5.hexdigest msg) = 32%nat.
Proof.
  unfold MD5.hexdigest, MD5.digest.
  rewrite length_flat_map_hex_byte, !length_app, !length_le_bytes. done.
Qed.

Lemma length_md5_hex8 s : length (md5_hex8 s) = 8%nat.
Proof.
  unfold md5_hex8, py_take, MD5.hexdigest, MD5.digest. simpl. reflexivity.
Qed.

Lemma hex_digit_is_hex n : n < 16 -> is_hex (MD5.hex_digit n) = true.
Proof.
  intros Hn. destruct n as [|p]; [reflexivity|].
  do 4 (destruct p as [p|p|]; try reflexivity); exfalso; lia.
Qed.

Lemma le_bytes_bound k x : Forall (fun b => b < 256) (MD5.le_bytes k x).
Proof.
  revert x. induction k as [|k IH]; intros x; simpl; constructor; [|apply IH].
  apply N.mod_lt. done.
Qed.

Lemma hexdigest_is_hex msg : Forall (fun c => is_hex c = true) (MD5.hexdigest msg).
Proof.
  unfold MD5.hexdigest. apply Forall_flat_map.
  assert (Forall (fun b => b < 256) (MD5.digest msg)) as Hbytes.
  { unfold MD5.digest. rewrite !Forall_app. split_and!; apply le_bytes_bound. }
  eapply Forall_impl; [exact Hbytes|]. intros b Hb. cbv beta in Hb.
  unfold MD5.hex_byte. constructor; [|constructor; [|constructor]].
  - apply hex_digit_is_hex. apply N.Div0.div_lt_upper_bound. lia.
  - apply hex_digit_is_hex. apply N.mod_lt. done.
Qed.

Lemma md5_hex8_is_hex s : Forall (fun c => is_hex c = true) (md5_hex8 s).
Proof. unfold md5_hex8, py_take. cbn [Z.leb Z.compare Z.to_nat]. apply Forall_take, hexdigest_is_hex. Qed.

Lemma sanitize_path_short path :
  (Z.of_nat (length (sanitized_join path)) <= Config.MAX_PATH_LENGTH)%Z ->
  _sanitize_path path = sanitized_join path.
Proof.
  intros H. unfold _sanitize_path.
  destruct (Z.ltb_spec Config.MAX_PATH_LENGTH (Z.of_nat (length (sanitized_join path)))); [lia | done].
Qed.

Lemma sanitize_path_long path :
  (Config.MAX_PATH_LENGTH < Z.of_nat (length (sanitized_join path)))%Z ->
  _sanitize_path path =
    take 190 (sanitized_join path) ++ [ch_underscore] ++ md5_hex8 (sanitized_join path).
Proof.
  intros H. unfold _sanitize_path.
  destruct (Z.ltb_spec Config.MAX_PATH_LENGTH (Z.of_nat (length (sanitized_join path)))); [done | lia].
Qed.

(** C3.  For every input string, the sanitized path is at most
    [MAX_PATH_LENGTH] (200) characters long: a joined result within the limit
    is returned as it is, and a longer one is replaced by its first 190
    (= max-10) characters, an underscore and the hash, which is 8 lower-case
    hexadecimal digits; the result then has 199 characters. *)
Theorem sanitize_path_length (path : pystr) :
  (Z.of_nat (length (_sanitize_path path)) <= Config.MAX_PATH_LENGTH)%Z
  /\ ((Z.of_nat (length (sanitized_join path)) <= Config.MAX_PATH_LENGTH)%Z ->
      _sanitize_path path = sanitized_join path)
  /\ ((Config.MAX_PATH_LENGTH < Z.of_nat (length (sanitized_join path)))%Z ->
      _sanitize_path path =
        py_take (Config.MAX_PATH_LENGTH - 10) (sanitized_join path)
          ++ [ch_underscore] ++ md5_hex8 (sanitized_join path)
      /\ length (md5_hex8 (sanitized_join path)) = 8%nat
      /\ Forall (fun c => is_hex c = true) (md5_hex8 (sanitized_join path))
      /\ length (_sanitize_path path) = 199%nat).
Proof.
  split; [| split].
  - destruct (Z.ltb_spec Config.MAX_PATH_LENGTH (Z.of_nat (length (sanitized_join path)))) as [Hlt|Hle].
    + rewrite sanitize_path_long by done.
      unfold Config.MAX_PATH_LENGTH in *.
      rewrite !length_app, length_take, length_md5_hex8.
      change (length [ch_underscore]) with 1%nat. lia.
    + by rewrite sanitize_path_short.
  - apply sanitize_path_short.
  - intros Hlt.
    split; [by apply sanitize_path_long | split; [apply length_md5_hex8 |]].
    split; [apply md5_hex8_is_hex|].
    rewrite sanitize_path_long by done.
    unfold Config.MAX_PATH_LENGTH in *.
    rewrite !length_app, length_take, length_md5_hex8.
      change (length [ch_underscore]) with 1%nat. lia.
Qed.

Lemma sanitize_path_length_witness :
  _sanitize_path path_600
  = py_take (Config.MAX_PATH_LENGTH - 10) (sanitized_join path_600)
      ++ [ch_underscore] ++ md5_hex8 (sanitized_join path_600)
  /\ length (_sanitize_path path_600) = 199%nat.
Proof.
  destruct (sanitize_path_length path_600) as (_ & _ & Hlong).
  destruct Hlong as (Heq & _ & _ & Hlen); [vm_compute; reflexivity|].
  split; [exact Heq | exact Hlen].
Defined.

Example sanitize_colon :
  _sanitize_path (str "/data/data/com.example:app/databases/chat.db")
  = str "data/data/com.example_app/databases/chat.db".
Proof. vm_compute. reflexivity. Qed.

Example sanitize_hidden_and_empty_parts :
  _sanitize_path (str "//sdcard/.thumbnails//a?b.jpg/") = str "sdcard/_thumbnails/a_b.jpg".
Proof. vm_compute. reflexivity. Qed.

(** A 600-character device path: the result has 199 characters and ends in
    an underscore and the first 8 hexadecimal digits of the MD5 digest. *)
Example sanitize_600 :
  let out := _sanitize_path path_600 in
  length out = 199%nat /\ drop 190 out = str "_6d35a15f".
Proof. vm_compute. split; reflexivity. Qed.

(** ** The sanitizer: two long paths with a common prefix *)

(** C5, counterexample.  Two distinct 202-character paths with the same first
    190 characters, differing in a character that the sanitizer replaces:
    the joined strings are equal, hence the hash and the output too. *)
Lemma truncation_collision : ~ truncation_never_collides.
Proof.
  intros H.
  apply (H colliding_path_1 colliding_path_2).
  - vm_compute. lia.
  - vm_compute. lia.
  - vm_compute. discriminate.
  - vm_compute. reflexivity.
  - vm_compute. reflexivity.
Qed.

(** C5, as amended.  The hash is taken over the whole joined string of the
    sanitized parts.  For two inputs whose joined strings both exceed the
    limit and agree on their first 190 characters, the outputs are equal
    exactly when the 8-character hashes of the two whole joined strings are
    equal. *)
Theorem truncation_distinguishes_by_hash (p q : pystr) :
  (Config.MAX_PATH_LENGTH < Z.of_nat (length (sanitized_join p)))%Z ->
  (Config.MAX_PATH_LENGTH < Z.of_nat (length (sanitized_join q)))%Z ->
  take 190 (sanitized_join p) = take 190 (sanitized_join q) ->
  (_sanitize_path p = _sanitize_path q
   <-> md5_hex8 (sanitized_join p) = md5_hex8 (sanitized_join q)).
Proof.
  intros Hp Hq Hpre.
  rewrite !sanitize_path_long by done. rewrite Hpre. split.
  - intros H. apply app_inv_head in H. simpl in H. congruence.
  - intros ->. reflexivity.
Qed.

Lemma truncation_distinguishes_by_hash_witness :
  (_sanitize_path distinct_path_1 = _sanitize_path distinct_path_2
   <-> md5_hex8 (sanitized_join distinct_path_1) = md5_hex8 (sanitized_join distinct_path_2)).
Proof.
  apply (truncation_distinguishes_by_hash distinct_path_1 distinct_path_2).
  - vm_compute. reflexivity.
  - vm_compute. reflexivity.
  - vm_compute. reflexivity.
Defined.

(** The two paths above differ after their 190th character and do get two
    different names. *)
Example distinct_paths_differ :
  _sanitize_path distinct_path_1 <> _sanitize_path distinct_path_2.
Proof. vm_compute. discriminate. Qed.

(** ** The sanitizer: characters and components of the output *)

Lemma replace_chars_map chars part :
  fold_left (fun s char => replace_char char ch_underscore s) chars part
  = map (fun c => fold_left (fun c char => if Ascii.eqb c char then ch_underscore else c)
                    chars c) part.
Proof.
  revert part. induction chars as [|ch chars IH]; intros part; simpl.
  - by rewrite map_id.
  - rewrite IH. unfold replace_char. rewrite map_map. apply map_ext. intros c.
    by rewrite Ascii.eqb_sym.
Qed.

Lemma clean_char_valid c : is_invalid (clean_char c) = false.
Proof. destruct c as [[] [] [] [] [] [] [] []]; vm_compute; reflexivity. Qed.

Lemma clean_char_slash c : clean_char c = ch_slash -> c = ch_slash.
Proof. destruct c as [[] [] [] [] [] [] [] []]; vm_compute; congruence. Qed.

Lemma clean_char_dot c : clean_char c = ch_dot -> c = ch_dot.
Proof. destruct c as [[] [] [] [] [] [] [] []]; vm_compute; congruence. Qed.

Lemma split_on_no_sep w : ch_slash ∉ w -> split_on ch_slash w = [w].
Proof.
  induction w as [|c w IH]; intros Hw; cbn [split_on]; [done|].
  apply not_elem_of_cons in Hw as [Hc Hw].
  destruct (Ascii.eqb_spec c ch_slash); [done|]. by rewrite IH.
Qed.

Lemma split_on_part w rest :
  ch_slash ∉ w -> split_on ch_slash (w ++ ch_slash :: rest) = w :: split_on ch_slash rest.
Proof.
  induction w as [|c w IH]; intros Hw; cbn [app split_on].
  - reflexivity.
  - apply not_elem_of_cons in Hw as [Hc Hw].
    destruct (Ascii.eqb_spec c ch_slash); [done|]. by rewrite IH.
Qed.

Lemma split_on_join parts :
  parts <> [] -> Forall (fun w => ch_slash ∉ w) parts ->
  split_on ch_slash (join [ch_slash] parts) = parts.
Proof.
  induction parts as [|w [|w' ws] IH]; intros Hne Hall; [done | |].
  - simpl. apply split_on_no_sep. by inversion Hall.
  - inversion Hall as [|? ? Hw Hrest]; subst.
    change (join [ch_slash] (w :: w' :: ws))
      with (w ++ ch_slash :: join [ch_slash] (w' :: ws)).
    rewrite split_on_part by done. f_equal. by apply IH.
Qed.

Lemma split_on_parts_no_sep s : Forall (fun w => ch_slash ∉ w) (split_on ch_slash s).
Proof.
  induction s as [|c s IH]; cbn [split_on].
  - repeat constructor. apply not_elem_of_nil.
  - destruct (Ascii.eqb_spec c ch_slash) as [->|Hc].
    + constructor; [apply not_elem_of_nil | done].
    + destruct (split_on ch_slash s) as [|w ws].
      * constructor; [|constructor].
        apply not_elem_of_cons. split; [congruence | apply not_elem_of_nil].
      * inversion IH; subst. constructor; [|done].
        apply not_elem_of_cons. split; [congruence | done].
Qed.

Lemma in_take (c : ascii) n w : c ∈ take n w -> c ∈ w.
Proof. intros H. rewrite <- (take_drop n w). apply elem_of_app. by left. Qed.

Lemma in_drop (c : ascii) n w : c ∈ drop n w -> c ∈ w.
Proof. intros H. rewrite <- (take_drop n w). apply elem_of_app. by right. Qed.

Lemma startswith_dot_take n w :
  startswith w [ch_dot] = false -> startswith (take n w) [ch_dot] = false.
Proof.
  destruct w as [|c w], n as [|n]; cbn [take firstn startswith]; try done.
  destruct (Ascii.eqb ch_dot c); [|done]. intros H. by destruct w.
Qed.

Lemma part_ok_take n w : part_ok w -> part_ok (take n w).
Proof.
  intros (Hsep & [Hlen Hdot] & Hclean). split_and!.
  - intros Hin. apply Hsep. by eapply in_take.
  - split; [rewrite length_take; lia | by apply startswith_dot_take].
  - by apply Forall_take.
Qed.

Lemma part_ok_nil : part_ok [].
Proof. split_and!; [apply not_elem_of_nil | split; [simpl; lia | done] | constructor]. Qed.

Lemma sanitize_part_ok part : ch_slash ∉ part -> part_ok (sanitize_part part).
Proof.
  intros Hsep. unfold sanitize_part. rewrite replace_chars_map.
  fold clean_char.
  set (cleaned := map clean_char part).
  assert ((ch_slash ∉ cleaned) /\ Forall (fun c => is_invalid c = false) cleaned) as [Hs Hc].
  { split.
    - intros Hin. apply list_elem_of_fmap in Hin as (c & Hc & Hin).
      symmetry in Hc. apply clean_char_slash in Hc. by subst.
    - apply Forall_fmap, Forall_true. intros c. apply clean_char_valid. }
  set (undotted := if startswith cleaned [ch_dot] then ch_underscore :: drop 1 cleaned
                   else cleaned).
  assert ((ch_slash ∉ undotted) /\ startswith undotted [ch_dot] = false
          /\ Forall (fun c => is_invalid c = false) undotted) as (Hs' & Hd' & Hc').
  { unfold undotted. destruct (startswith cleaned [ch_dot]) eqn:Hdot; [|done].
    split_and!.
    - apply not_elem_of_cons. split; [done|]. intros Hin. apply Hs. by eapply in_drop.
    - done.
    - constructor; [done | by apply Forall_drop]. }
  destruct (Nat.ltb_spec 100 (length undotted)).
  - split_and!.
    + intros Hin. apply Hs'. by eapply in_take.
    + split; [rewrite length_take; lia | by apply startswith_dot_take].
    + by apply Forall_take.
  - split_and!; try done.
Qed.

Lemma sanitized_parts_ok parts :
  Forall (fun w => ch_slash ∉ w) parts -> Forall part_ok (sanitized_parts parts).
Proof.
  induction 1 as [|w ws Hw _ IH]; simpl; [constructor|].
  destruct w; [done|]. constructor; [by apply sanitize_part_ok | done].
Qed.

Lemma join_cons w w' ws :
  join [ch_slash] (w :: w' :: ws) = w ++ ch_slash :: join [ch_slash] (w' :: ws).
Proof. reflexivity. Qed.

(** A prefix of a joined string is the joined string of prefixes of the
    parts. *)
Lemma take_join n parts :
  Forall part_ok parts ->
  exists parts', take n (join [ch_slash] parts) = join [ch_slash] parts'
                 /\ Forall part_ok parts'.
Proof.
  intros Hall. revert n. induction Hall as [|w ws Hw Hws IH]; intros n.
  - exists []. split; [by destruct n | constructor].
  - destruct ws as [|w' ws].
    + exists [take n w]. split; [done|]. constructor; [by apply part_ok_take | done].
    + rewrite join_cons, take_app.
      destruct (n - length w)%nat as [|k] eqn:Hk.
      * exists [take n w]. rewrite take_0, app_nil_r.
        split; [done|]. constructor; [by apply part_ok_take | done].
      * rewrite take_ge by lia. cbn [take firstn].
        destruct (IH k) as (parts' & Htake & Hparts').
        change (firstn k) with (@take ascii k). rewrite Htake.
        destruct parts' as [|p ps].
        -- exists [w; []]. split; [done|].
           constructor; [done | constructor; [apply part_ok_nil | constructor]].
        -- exists (w :: p :: ps). split; [done|]. by constructor.
Qed.

Lemma join_extend_last parts suffix :
  join [ch_slash] parts ++ suffix = join [ch_slash] (extend_last parts suffix).
Proof.
  induction parts as [|w [|w' ws] IH]; [done | done |].
  rewrite join_cons, <- app_assoc. cbn [app]. rewrite IH.
  change (extend_last (w :: w' :: ws) suffix) with (w :: extend_last (w' :: ws) suffix).
  destruct (extend_last (w' :: ws) suffix) eqn:He; [|done].
  unfold extend_last in He. by destruct (removelast (w' :: ws)).
Qed.

Lemma extend_last_no_sep parts suffix :
  Forall part_ok parts -> ch_slash ∉ suffix ->
  Forall (fun w => ch_slash ∉ w) (extend_last parts suffix).
Proof.
  intros Hall Hsuf. induction Hall as [|w ws Hw Hws IH]; [by constructor|].
  destruct ws as [|w' ws].
  - constructor; [|constructor]. cbn. intros Hin. apply elem_of_app in Hin as [Hin|Hin]; [|done].
    by destruct Hw as [? _].
  - change (extend_last (w :: w' :: ws) suffix) with (w :: extend_last (w' :: ws) suffix).
    constructor; [by destruct Hw | exact IH].
Qed.

Lemma extend_last_components parts suffix :
  Forall part_ok parts ->
  (length suffix <= 9)%nat -> startswith suffix [ch_dot] = false ->
  Forall (component_ok 109) (extend_last parts suffix).
Proof.
  intros Hall Hlen Hdot. induction Hall as [|w ws Hw Hws IH].
  - constructor; [split; [simpl; lia | done] | constructor].
  - destruct Hw as (_ & [Hwlen Hwdot] & _). destruct ws as [|w' ws].
    + constructor; [|constructor]. cbn [extend_last List.last removelast app]. split.
      * rewrite length_app. lia.
      * destruct w as [|a w]; [exact Hdot|].
        cbn [app startswith] in Hwdot |- *.
        destruct (Ascii.eqb ch_dot a); [by destruct w | done].
    + change (extend_last (w :: w' :: ws) suffix) with (w :: extend_last (w' :: ws) suffix).
      constructor; [split; [lia | done] | exact IH].
Qed.

Lemma extend_last_not_nil parts suffix : extend_last parts suffix <> [].
Proof.
  destruct parts; [done|]. unfold extend_last. by destruct (removelast _).
Qed.

Lemma is_hex_plain c :
  is_hex c = true -> c <> ch_slash /\ c <> ch_dot /\ is_invalid c = false.
Proof. destruct c as [[] [] [] [] [] [] [] []]; vm_compute; intros H; try discriminate H; done. Qed.

Lemma join_clean parts :
  Forall part_ok parts -> Forall (fun c => is_invalid c = false) (join [ch_slash] parts).
Proof.
  induction 1 as [|w ws Hw Hws IH]; [constructor|].
  destruct ws as [|w' ws]; [by destruct Hw as (_ & _ & ?)|].
  rewrite join_cons. apply Forall_app. split; [by destruct Hw as (_ & _ & ?)|].
  constructor; [reflexivity | exact IH].
Qed.

Lemma component_ok_weaken a b comp : (a <= b)%nat -> component_ok a comp -> component_ok b comp.
Proof. intros Hab [Hlen Hdot]. split; [lia | done]. Qed.

(** The guarantees of a local path that hold for every input: none of the
    ten illegal characters occurs in the output; no component of the output
    begins with a dot; a component has at most 100 characters when the
    joined string is within the limit, and at most 109 otherwise (the hash
    suffix is appended to what the cut leaves of the last part). *)
Theorem sanitize_path_guarantees (path : pystr) :
  Forall (fun c => is_invalid c = false) (_sanitize_path path)
  /\ Forall (component_ok 109) (split_on ch_slash (_sanitize_path path))
  /\ ((Z.of_nat (length (sanitized_join path)) <= Config.MAX_PATH_LENGTH)%Z ->
      Forall (component_ok 100) (split_on ch_slash (_sanitize_path path))).
Proof.
  assert (Forall part_ok (sanitized_parts (split_on ch_slash path))) as Hparts.
  { apply sanitized_parts_ok, split_on_parts_no_sep. }
  assert ((Z.of_nat (length (sanitized_join path)) <= Config.MAX_PATH_LENGTH)%Z ->
          Forall (fun c => is_invalid c = false) (_sanitize_path path)
          /\ Forall (component_ok 100) (split_on ch_slash (_sanitize_path path))) as Hshort.
  { intros Hle. rewrite sanitize_path_short by done. unfold sanitized_join.
    split; [by apply join_clean|].
    destruct (sanitized_parts (split_on ch_slash path)) as [|w ws] eqn:Hp.
    - repeat constructor.
    - rewrite split_on_join; [| done |].
      + eapply Forall_impl; [exact Hparts|]. by intros ? (_ & ? & _).
      + eapply Forall_impl; [exact Hparts|]. by intros ? (? & _). }
  split_and!; [| | apply Hshort].
  - destruct (Z.le_gt_cases (Z.of_nat (length (sanitized_join path))) Config.MAX_PATH_LENGTH)
      as [Hle|Hgt]; [by apply Hshort|].
    rewrite sanitize_path_long by lia. rewrite !Forall_app. split_and!.
    + apply Forall_take. by apply join_clean.
    + by repeat constructor.
    + eapply Forall_impl; [apply md5_hex8_is_hex|]. intros c Hc.
      by apply is_hex_plain in Hc as (_ & _ & ?).
  - destruct (Z.le_gt_cases (Z.of_nat (length (sanitized_join path))) Config.MAX_PATH_LENGTH)
      as [Hle|Hgt].
    { eapply Forall_impl; [by apply Hshort|]. intros comp. apply component_ok_weaken. lia. }
    rewrite sanitize_path_long by lia. unfold sanitized_join.
    destruct (take_join 190 _ Hparts) as (parts' & -> & Hparts').
    set (suffix := [ch_underscore] ++ md5_hex8 (join [ch_slash] (sanitized_parts _))).
    assert (Forall (fun c => is_hex c = true) (md5_hex8 (sanitized_join path))) as Hhex
      by apply md5_hex8_is_hex.
    rewrite join_extend_last.
    rewrite split_on_join.
    + apply extend_last_components; [done | | done].
      unfold suffix. rewrite length_app, length_md5_hex8. simpl. lia.
    + apply extend_last_not_nil.
    + apply extend_last_no_sep; [done|].
      unfold suffix. intros Hin. apply elem_of_app in Hin as [Hin|Hin].
      * apply list_elem_of_singleton in Hin. discriminate.
      * rewrite Forall_forall in Hhex. apply (Hhex ch_slash) in Hin. discriminate.
Qed.

(** C4, at the failing input.  The joined string has 201 characters; its
    first 190 end with the whole second part, 100 characters long, and the
    suffix of 9 characters is appended to it: the second component of the
    output has 109 characters. *)
Theorem hash_suffix_lengthens_component :
  map length (split_on ch_slash (_sanitize_path long_component_path)) = [89; 109]%nat
  /\ length (sanitized_join long_component_path) = 201%nat
  /\ Forall (fun part => (length part <= 100)%nat)
            (split_on ch_slash (sanitized_join long_component_path)).
Proof.
  split; [vm_compute; reflexivity | split; [vm_compute; reflexivity|]].
  vm_compute. repeat constructor.
Qed.

(** ** The engine: generalities *)

Lemma _extract_file_production_unfold source r b c f s :
  _extract_file_production source r b c f s
  = extract_with source (_extract_file_production source) r b c f s.
Proof. destruct f; reflexivity. Qed.

Section Keeps.

Context (R : State -> State -> Prop) `{!PreOrder R}.

Lemma keeps_ret {A} (a : A) : keeps R (ret a).
Proof. intros s. simpl. reflexivity. Qed.

Lemma keeps_raise {A} e : keeps R (@raise A e).
Proof. intros s. simpl. reflexivity. Qed.

Lemma keeps_gets {A} (f : State -> A) : keeps R (gets f).
Proof. intros s. simpl. reflexivity. Qed.

Lemma keeps_modify f : (forall s, R s (f s)) -> keeps R (modify f).
Proof. intros H s. apply H. Qed.

Lemma keeps_bind {A B} (m : M A) (k : A -> M B) :
  keeps R m -> (forall a, keeps R (k a)) -> keeps R (bind m k).
Proof.
  intros Hm Hk s. unfold bind. specialize (Hm s).
  destruct (m s) as [[a|e] s1]; simpl in *; [|done].
  etrans; [exact Hm | apply Hk].
Qed.

Lemma keeps_try_except {A} (m : M A) h :
  keeps R m -> (forall e, keeps R (h e)) -> keeps R (try_except m h).
Proof.
  intros Hm Hh s. unfold try_except. specialize (Hm s).
  destruct (m s) as [[a|e] s1]; simpl in *; [done|].
  etrans; [exact Hm | apply Hh].
Qed.

Lemma keeps_guarded {A} op p (m : M A) : keeps R m -> keeps R (guarded op p m).
Proof.
  intros Hm s. unfold guarded. destruct (refuses _ _ _); simpl; [reflexivity | apply Hm].
Qed.

Lemma keeps_stat_size p : keeps R (stat_size p).
Proof.
  apply keeps_guarded. intros s. destruct (files _ !! _); simpl; reflexivity.
Qed.

Lemma keeps_path_exists p : keeps R (path_exists p).
Proof. apply keeps_guarded, keeps_gets. Qed.

End Keeps.

Create HintDb keeps.

(** Splits a goal [keeps R m] along the structure of [m]; the lemmas of the
    database [keeps] are tried first. *)
Ltac keeps_split :=
  repeat first
    [ solve [ auto 2 with keeps ]
    | apply keeps_ret; solve [ typeclasses eauto ]
    | apply keeps_raise; solve [ typeclasses eauto ]
    | apply keeps_gets; solve [ typeclasses eauto ]
    | apply keeps_stat_size; solve [ typeclasses eauto ]
    | apply keeps_path_exists; solve [ typeclasses eauto ]
    | apply keeps_bind; [ solve [ typeclasses eauto ] | | intros ? ]
    | apply keeps_try_except; [ solve [ typeclasses eauto ] | | intros ? ]
    | apply keeps_guarded; [ solve [ typeclasses eauto ] | ]
    | apply keeps_modify; [ solve [ typeclasses eauto ] | ]
    | match goal with
      | |- keeps _ (if ?b then _ else _) => destruct b
      | |- keeps _ (match ?x with _ => _ end) => destruct x
      end ].

(** Closes the leaves: a state update that does not touch what [R] reads. *)
Ltac keeps_leaf R :=
  intros ?; unfold R, modify, on_self, on_world; simpl; try done; try set_solver.

#[local] Instance extracted_grows_preorder : PreOrder extracted_grows.
Proof. split; unfold extracted_grows; [intros s | intros s1 s2 s3]; set_solver. Qed.

Lemma unlink_grows p : keeps extracted_grows (unlink p).
Proof.
  apply keeps_guarded; [apply _|]. intros s.
  destruct (files _ !! _); unfold extracted_grows; simpl; set_solver.
Qed.
#[local] Hint Resolve unlink_grows : keeps.

Lemma adb_grows source c t : keeps extracted_grows (_adb source c t).
Proof. unfold _adb, log. keeps_split; keeps_leaf extracted_grows. Qed.
#[local] Hint Resolve adb_grows : keeps.

Lemma shell_grows source c r t : keeps extracted_grows (_shell source c r t).
Proof. unfold _shell. keeps_split. Qed.
#[local] Hint Resolve shell_grows : keeps.

Lemma run_methods_grows source r fn l : keeps extracted_grows (run_methods source r fn l).
Proof.
  unfold run_methods, method1, method2, method3, pulled_ok, write_text.
  keeps_split; keeps_leaf extracted_grows.
Qed.
#[local] Hint Resolve run_methods_grows : keeps.

Lemma verify_grows source ok r fn l c : keeps extracted_grows (verify source ok r fn l c).
Proof.
  unfold verify, _get_file_size_mb, _add_to_stats, log.
  keeps_split; keeps_leaf extracted_grows.
Qed.
#[local] Hint Resolve verify_grows : keeps.

Lemma extract_with_grows source again r b c f :
  (forall r b c f, keeps extracted_grows (again r b c f)) ->
  keeps extracted_grows (extract_with source again r b c f).
Proof.
  intros Hagain. unfold extract_with, pipeline, on_exception, try_except_OSError,
    mkdir_parents, log.
  keeps_split; keeps_leaf extracted_grows.
Qed.

Lemma extract_grows source r b c f :
  keeps extracted_grows (_extract_file_production source r b c f).
Proof.
  apply extract_with_grows. intros. apply extract_with_grows.
  intros. apply keeps_ret. apply _.
Qed.

Section Ensures.

Context {B : Type} (Q : outcome B -> State -> Prop).
Hypothesis Q_raise : forall e s, Q (Raise e) s.

Lemma ensures_bind {A} (m : M A) (k : A -> M B) :
  (forall a, ensures Q (k a)) -> ensures Q (bind m k).
Proof.
  intros Hk s. unfold bind. destruct (m s) as [[a|e] s1]; [apply Hk | apply Q_raise].
Qed.

Lemma ensures_try_except (m : M B) h :
  ensures Q m -> (forall e, ensures Q (h e)) -> ensures Q (try_except m h).
Proof.
  intros Hm Hh s. unfold try_except. specialize (Hm s).
  destruct (m s) as [[a|e] s1]; [exact Hm | apply Hh].
Qed.

End Ensures.

(** ** Dedup: the extracted-path set *)

Lemma recorded_raise r e s : true_means_recorded r (Raise e) s.
Proof. intros H. discriminate. Qed.

Lemma recorded_false r : ensures (true_means_recorded r) (ret false).
Proof. intros s H. discriminate. Qed.

Lemma verify_recorded source ok r fn l c :
  ensures (true_means_recorded r) (verify source ok r fn l c).
Proof.
  intros s. unfold true_means_recorded, verify, bind, _get_file_size_mb, try_except,
    path_exists, stat_size, unlink, guarded, gets, _add_to_stats, modify, ret, log.
  repeat (case_match; simpl in *; simplify_eq); try discriminate; intros _; set_solver.
Qed.

Lemma extract_with_recorded source again r b c f :
  (forall f', ensures (true_means_recorded r) (again r b c f')) ->
  ensures (true_means_recorded r) (extract_with source again r b c f).
Proof.
  intros Hagain. unfold extract_with, pipeline, on_exception.
  apply ensures_try_except.
  - repeat first
      [ apply recorded_false | apply verify_recorded | apply Hagain
      | apply ensures_bind; [ apply recorded_raise | intros ? ]
      | match goal with |- ensures _ (if ?x then _ else _) => destruct x end ].
  - intros e.
    repeat first
      [ apply recorded_false
      | apply ensures_bind; [ apply recorded_raise | intros ? ] ].
Qed.

Lemma extract_recorded source r b c f :
  ensures (true_means_recorded r) (_extract_file_production source r b c f).
Proof.
  apply extract_with_recorded. intros f'. apply extract_with_recorded.
  intros f''. apply recorded_false.
Qed.

Lemma extract_duplicate source r b c f s :
  r ∈ extracted_files (self s) ->
  _extract_file_production source r b c f s = (Ret false, s).
Proof.
  intros Hin. rewrite _extract_file_production_unfold.
  unfold extract_with, try_except, pipeline, bind, gets.
  rewrite bool_decide_eq_true_2 by done. reflexivity.
Qed.

Lemma check_root_access_grows source : keeps extracted_grows (check_root_access source).
Proof. unfold check_root_access, log. keeps_split; keeps_leaf extracted_grows. Qed.

Lemma session_step_grows source s s' : session_step source s s' -> extracted_grows s s'.
Proof.
  destruct 1 as [s s' [r s0 | s0] | s st entries | s w].
  - apply extract_grows.
  - apply check_root_access_grows.
  - unfold extracted_grows. simpl. set_solver.
  - unfold extracted_grows. simpl. set_solver.
Qed.

Lemma session_run_grows source s s' : session_run source s s' -> extracted_grows s s'.
Proof.
  induction 1 as [s | s1 s2 s3 Hstep _ IH].
  - reflexivity.
  - etrans; [by eapply session_step_grows | exact IH].
Qed.

(** C2, counterexample.  With a device whose first command fails, the first
    call for the photo returns false and counts a failed file; the second call
    for the same path pulls the file, returns true and changes the
    statistics. *)
Lemma second_call_may_succeed : ~ second_call_is_a_no_op.
Proof.
  intros H.
  destruct (H main photo_request (start no_refusal late_device)) as [Hret _].
  vm_compute in Hret. discriminate.
Qed.

(** C9.  Once a call for a device path has returned true, every later call
    for that path in the session returns false (and changes nothing), whatever
    the session did in between: other extractions, root checks, what the
    acquisition methods write to the statistics and the log, changes of the
    surroundings.  The path is in the extracted set, nothing of this removes
    a path from the set, and the first test of the pipeline answers. *)
Theorem no_second_success source r b c f b' c' f' s s2 :
  (_extract_file_production source r b c f s).1 = Ret true ->
  session_run source (_extract_file_production source r b c f s).2 s2 ->
  r ∈ extracted_files (self s2)
  /\ _extract_file_production source r b' c' f' s2 = (Ret false, s2).
Proof.
  intros Htrue Hrun.
  assert (r ∈ extracted_files (self s2)) as Hin.
  { apply (session_run_grows _ _ _ Hrun). by apply extract_recorded. }
  split; [exact Hin | by apply extract_duplicate].
Qed.

Lemma no_second_success_witness :
  str "/sdcard/DCIM/img1.jpg" ∈ extracted_files (self later_on)
  /\ extract amat_data_collection photo_request later_on = (Ret false, later_on).
Proof.
  apply (no_second_success amat_data_collection (str "/sdcard/DCIM/img1.jpg")
           (str "case/04_MEDIA/photos") (str "media") true
           (str "case/04_MEDIA/photos") (str "media") true
           (start no_refusal (good_device 2097152)) later_on).
  - vm_compute. reflexivity.
  - eapply rtc_l;
      [apply (step_caller _ _ (upd_photos_acquired incr (stats (self after_photo))) [])|].
    eapply rtc_l; [apply step_engine, step_check_root|].
    eapply rtc_l; [apply step_engine, (step_extract _ other_request)|].
    apply rtc_refl.
Defined.

(** ** Resuming: a target that is already on disk *)

(** C8.  When the workstation reports a file of non-zero size at the local
    target of the call, the call returns false and the state is the one
    before the call: no command reached the device bridge and no field of the
    statistics changed. *)
Theorem resume_skips source r b c f s :
  reports_nonempty (world s) (local_target r b f) ->
  _extract_file_production source r b c f s = (Ret false, s)
  /\ calls (world (_extract_file_production source r b c f s).2) = calls (world s)
  /\ stats (self (_extract_file_production source r b c f s).2) = stats (self s).
Proof.
  intros (Hex & Hst & n & Hfile & Hpos).
  assert (_extract_file_production source r b c f s = (Ret false, s)) as ->; [|done].
  rewrite _extract_file_production_unfold.
  unfold extract_with, try_except, pipeline, bind, gets.
  destruct (bool_decide _); [reflexivity|].
  unfold path_exists, stat_size, guarded, gets. rewrite Hex.
  rewrite bool_decide_eq_true_2 by eauto. simpl. rewrite Hst, Hfile.
  apply N.ltb_lt in Hpos. rewrite Hpos. reflexivity.
Qed.

Lemma resume_skips_witness :
  extract main photo_request resumed = (Ret false, resumed)
  /\ calls (world (extract main photo_request resumed).2) = []
  /\ stats (self (extract main photo_request resumed).2) = stats_init.
Proof.
  apply (resume_skips main (str "/sdcard/DCIM/img1.jpg") (str "case/04_MEDIA/photos")
           (str "media") true resumed).
  split; [reflexivity | split; [reflexivity|]].
  exists 2097152. split; [vm_compute; reflexivity | reflexivity].
Defined.

(** ** Faults *)

Lemma on_exception_returns source r e s :
  exists s', on_exception source r e s = (Ret false, s').
Proof.
  unfold on_exception, bind, modify, gets, log, ret. destruct source; simpl.
  - destruct (_ <? _)%Z; simpl; eauto.
  - eauto.
Qed.

Lemma extract_with_total source again r b c f s :
  (forall r b c f s, exists o s', again r b c f s = (Ret o, s')) ->
  exists o s', extract_with source again r b c f s = (Ret o, s').
Proof.
  intros Hagain. unfold extract_with, try_except.
  destruct (pipeline source again r b c f s) as [[o|e] s1]; [eauto|].
  destruct (on_exception_returns source r e s1) as [s' ->]. eauto.
Qed.




(** ** The size ceiling *)

#[local] Instance bookkeeping_untouched_preorder : PreOrder bookkeeping_untouched.
Proof.
  split.
  - intros s. by repeat split.
  - intros s1 s2 s3 (?&?&?&?&?) (?&?&?&?&?). repeat split; congruence.
Qed.

Lemma run_methods_bookkeeping source r fn l :
  keeps bookkeeping_untouched (run_methods source r fn l).
Proof.
  unfold run_methods, method1, method2, method3, pulled_ok, write_text, _shell, _adb, log.
  keeps_split; keeps_leaf bookkeeping_untouched.
Qed.

Lemma pipeline_lets_through source again r b c f s :
  lets_through s r (local_target r b f) ->
  pipeline source again r b c f s
  = bind (run_methods source r (basename r) (local_target r b f))
         (fun success =>
            verify source success r (basename r) (local_target r b f) c) s.
Proof.
  intros (Hnew & Hex & Hfile & Hmk).
  unfold pipeline at 1. unfold bind at 1. unfold gets at 1.
  rewrite bool_decide_eq_false_2 by done.
  unfold bind at 1. unfold path_exists, guarded, gets. rewrite Hex.
  assert (forall k : bool -> M bool,
            bind (if bool_decide (is_Some (files (world s) !! local_target r b f))
                  then (sz <- stat_size (local_target r b f) ;; ret (0 <? sz))
                  else ret false) k s = k false s) as Hpresent.
  { intros k. unfold bind, stat_size, guarded, ret.
    destruct Hfile as [Hf | [Hf Hst]].
    - rewrite bool_decide_eq_false_2; [done | rewrite Hf; apply is_Some_None].
    - rewrite bool_decide_eq_true_2 by eauto. rewrite Hst, Hf. done. }
  rewrite Hpresent.
  unfold bind at 1. unfold try_except_OSError, try_except, mkdir_parents, guarded.
  unfold bind at 1. rewrite Hmk. reflexivity.
Qed.

Lemma size_to_mb_zero n : Qeq_bool (size_to_mb n) 0 = true -> n = 0.
Proof.
  intros H. apply Qeq_bool_eq in H. unfold size_to_mb, Qeq in H. simpl in H. lia.
Qed.

Lemma oversized_not_zero n :
  (Config.MAX_FILE_SIZE_MB < size_to_mb n)%Q -> Qeq_bool (size_to_mb n) 0 = false.
Proof.
  intros H. destruct (Qeq_bool (size_to_mb n) 0) eqn:E; [|done].
  apply size_to_mb_zero in E. subst n. vm_compute in H. discriminate.
Qed.

Lemma oversized_above n :
  (Config.MAX_FILE_SIZE_MB < size_to_mb n)%Q ->
  Qgt_bool Config.MAX_FILE_SIZE_MB 0 && Qgt_bool (size_to_mb n) Config.MAX_FILE_SIZE_MB = true.
Proof.
  intros H. unfold Qgt_bool.
  destruct (Qle_bool (size_to_mb n) Config.MAX_FILE_SIZE_MB) eqn:E.
  - apply Qle_bool_iff in E. exfalso. eapply Qlt_not_le; eauto.
  - reflexivity.
Qed.

(** C7, counterexample.  A pull that delivers 600 MiB: the call returns
    false, the file is deleted, and the statistics are those of before the
    call; no field records the oversized outcome. *)
Lemma oversized_is_not_counted : ~ oversized_is_counted.
Proof.
  intros H.
  pose (s := start no_refusal (good_device huge)).
  apply (H main (str "/sdcard/DCIM/img1.jpg") (str "case/04_MEDIA/photos") (str "media") true
           s (run_methods main (str "/sdcard/DCIM/img1.jpg") (str "img1.jpg")
                (str "case/04_MEDIA/photos/img1.jpg") s).2 huge).
  - repeat split; try reflexivity; [|left; reflexivity]. vm_compute. set_solver.
  - vm_compute. reflexivity.
  - split; [reflexivity | split; [vm_compute; reflexivity | vm_compute; reflexivity]].
  - reflexivity.
  - vm_compute. reflexivity.
Qed.

Lemma bind_run {A B} (m : M A) (k : A -> M B) s a s1 :
  m s = (Ret a, s1) -> bind m k s = k a s1.
Proof. intros H. unfold bind. rewrite H. reflexivity. Qed.

Lemma bind_run_raise {A B} (m : M A) (k : A -> M B) s e s1 :
  m s = (Raise e, s1) -> bind m k s = (Raise e, s1).
Proof. intros H. unfold bind. rewrite H. reflexivity. Qed.

Lemma path_exists_run p s :
  refuses (world s) op_exists p = None ->
  path_exists p s = (Ret (bool_decide (is_Some (files (world s) !! p))), s).
Proof. intros H. unfold path_exists, guarded, gets. rewrite H. reflexivity. Qed.

Lemma stat_size_run p s n :
  refuses (world s) op_stat p = None -> files (world s) !! p = Some n ->
  stat_size p s = (Ret n, s).
Proof. intros H Hf. unfold stat_size, guarded. rewrite H, Hf. reflexivity. Qed.

Lemma unlink_run p s n :
  refuses (world s) op_unlink p = None -> files (world s) !! p = Some n ->
  unlink p s = (Ret tt, on_world (set_files (delete p)) s).
Proof. intros H Hf. unfold unlink, guarded. rewrite H, Hf. reflexivity. Qed.

(** A call that its early tests let through, whose methods succeed and leave
    a file above the ceiling: the file is deleted, the call returns false and
    the statistics are those of before the call. *)
Lemma oversized_through source r b c f s s1 n :
  let l := local_target r b f in
  lets_through s r l ->
  run_methods source r (basename r) l s = (Ret true, s1) ->
  reports_oversized (world s1) l n ->
  refuses (world s1) op_unlink l = None ->
  let out := _extract_file_production source r b c f s in
  out.1 = Ret false
  /\ files (world out.2) = delete l (files (world s1))
  /\ stats (self out.2) = stats (self s)
  /\ failed_files (stats (self out.2)) = failed_files (stats (self s))
  /\ extracted_files (self out.2) = extracted_files (self s)
  /\ log_entries (self out.2)
     = log_entries (self s1)
       ++ match source with
          | amat_data_collection => [skipped_entry n (basename r)]
          | main => []
          end.
Proof.
  intros l Hthrough Hrun (Hst & Hfile & Hbig) Hunlink out.
  pose proof (run_methods_bookkeeping source r (basename r) l s) as Hkeep.
  rewrite Hrun in Hkeep. destruct Hkeep as (Hstats & Hext & _ & Hrefuses & _).
  simpl in Hstats, Hext, Hrefuses.
  assert (refuses (world s1) op_exists l = None) as Hex.
  { rewrite Hrefuses. apply Hthrough. }
  assert (out = (Ret false,
                 match source with
                 | amat_data_collection =>
                     on_self (set_log_entries (fun x => x ++ [skipped_entry n (basename r)]))
                       (on_world (set_files (delete l)) s1)
                 | main => on_world (set_files (delete l)) s1
                 end)) as ->.
  { unfold out. rewrite _extract_file_production_unfold.
    unfold extract_with, try_except.
    rewrite pipeline_lets_through by exact Hthrough. fold l.
    rewrite (bind_run _ _ _ _ _ Hrun).
    unfold verify.
    rewrite (bind_run _ _ _ _ _ (path_exists_run l s1 Hex)).
    rewrite bool_decide_eq_true_2 by (rewrite Hfile; eauto).
    assert (_get_file_size_mb l s1 = (Ret (size_to_mb n), s1)) as Hsize.
    { unfold _get_file_size_mb, try_except.
      rewrite (bind_run _ _ _ _ _ (stat_size_run l s1 n Hst Hfile)). reflexivity. }
    rewrite (bind_run _ _ _ _ _ Hsize).
    rewrite (oversized_not_zero n Hbig), (oversized_above n Hbig).
    rewrite (bind_run _ _ _ _ _ (unlink_run l s1 n Hunlink Hfile)).
    destruct source; reflexivity. }
  destruct source; simpl; rewrite ?app_nil_r, Hstats, Hext; done.
Qed.

(** ** The early tests of the pipeline, case by case *)

Lemma pipeline_cases source again r b c f s :
  pipeline source again r b c f s =
  let l := local_target r b f in
  if bool_decide (r ∈ extracted_files (self s)) then (Ret false, s) else
  match refuses (world s) op_exists l with
  | Some e => (Raise e, s)
  | None =>
      match
        match files (world s) !! l with
        | Some n =>
            match refuses (world s) op_stat l with
            | Some e => Raise e
            | None => Ret (0 <? n)
            end
        | None => Ret false
        end
      with
      | Raise e => (Raise e, s)
      | Ret true => (Ret false, s)
      | Ret false =>
          match refuses (world s) op_mkdir (path_parent l) with
          | Some OSError =>
              let s1 := on_self (set_stats (upd_path_errors incr)) s in
              if f then (Ret false, s1) else again r b c true s1
          | Some OtherException => (Raise OtherException, s)
          | None =>
              bind (run_methods source r (basename r) l)
                   (fun success => verify source success r (basename r) l c) s
          end
      end
  end.
Proof.
  unfold pipeline. unfold bind at 1. unfold gets at 1. cbv zeta.
  destruct (bool_decide _); [reflexivity|].
  unfold bind at 1. unfold path_exists, guarded, gets.
  destruct (refuses (world s) op_exists _); [reflexivity|].
  unfold bind at 1. unfold stat_size, guarded, bind, ret.
  destruct (files (world s) !! _) as [n|] eqn:Hfile; rewrite ?Hfile.
  - rewrite bool_decide_eq_true_2 by eauto.
    destruct (refuses (world s) op_stat _); [reflexivity|]. rewrite Hfile.
    destruct (0 <? n); [reflexivity|].
    unfold try_except_OSError, try_except, mkdir_parents, guarded, modify, raise.
    destruct (refuses (world s) op_mkdir _) as [[|]|]; try reflexivity.
    destruct f; reflexivity.
  - rewrite bool_decide_eq_false_2 by apply is_Some_None.
    unfold try_except_OSError, try_except, mkdir_parents, guarded, modify, raise.
    destruct (refuses (world s) op_mkdir _) as [[|]|]; try reflexivity.
    destruct f; reflexivity.
Qed.

(** ** Two device paths with one local target *)

Lemma reports_nonempty_transfer w w' T :
  reports_nonempty w T ->
  refuses w' = refuses w -> files w' !! T = files w !! T ->
  reports_nonempty w' T.
Proof. intros (?&?&n&?&?) Hr Hf. unfold reports_nonempty. rewrite Hr, Hf. eauto 6. Qed.

#[local] Instance target_kept_preorder T : PreOrder (target_kept T).
Proof.
  split.
  - intros s _. done.
  - intros s1 s2 s3 H12 H23 Hrep.
    destruct (H12 Hrep) as [Hr12 Hf12].
    destruct (H23 (reports_nonempty_transfer _ _ _ Hrep Hr12 Hf12)) as [Hr23 Hf23].
    split; congruence.
Qed.

Ltac target_leaf :=
  intros ? ?; unfold modify, on_self, on_world; simpl; split; [done|];
  try done; unfold pull_effect; repeat case_match; try done;
  rewrite ?lookup_insert_ne, ?lookup_delete_ne by congruence; done.

Lemma adb_pull_target_kept source src l t T :
  l <> T -> keeps (target_kept T) (_adb source [str "pull"; src; l] t).
Proof. intros Hne. unfold _adb, log. keeps_split; target_leaf. Qed.

Lemma adb2_target_kept source v c t T : keeps (target_kept T) (_adb source [v; c] t).
Proof. unfold _adb, log. keeps_split; target_leaf. Qed.

Lemma adb4_target_kept source v x y c t T :
  keeps (target_kept T) (_adb source [v; x; y; c] t).
Proof. unfold _adb, log. keeps_split; target_leaf. Qed.

#[local] Hint Resolve adb_pull_target_kept adb2_target_kept adb4_target_kept : keeps.

Lemma shell_target_kept source c r t T : keeps (target_kept T) (_shell source c r t).
Proof. unfold _shell. keeps_split. Qed.

Lemma unlink_target_kept l T : l <> T -> keeps (target_kept T) (unlink l).
Proof.
  intros Hne. apply keeps_guarded; [apply _|]. intros s.
  destruct (files _ !! _); [|reflexivity]. revert s. target_leaf.
Qed.

Lemma write_text_target_kept l text T : l <> T -> keeps (target_kept T) (write_text l text).
Proof. intros Hne. unfold write_text. keeps_split; target_leaf. Qed.

#[local] Hint Resolve shell_target_kept unlink_target_kept write_text_target_kept : keeps.

Lemma run_methods_target_kept source r fn l T :
  l <> T -> keeps (target_kept T) (run_methods source r fn l).
Proof.
  intros Hne. unfold run_methods, method1, method2, method3, pulled_ok.
  keeps_split; target_leaf.
Qed.

Lemma verify_target_kept source ok r fn l c T :
  l <> T -> keeps (target_kept T) (verify source ok r fn l c).
Proof.
  intros Hne. unfold verify, _get_file_size_mb, _add_to_stats, log.
  keeps_split; target_leaf.
Qed.

#[local] Hint Resolve run_methods_target_kept verify_target_kept : keeps.

Lemma extract_with_present source again r b c f s :
  reports_nonempty (world s) (local_target r b f) ->
  extract_with source again r b c f s = (Ret false, s).
Proof.
  intros (Hex & Hst & n & Hfile & Hpos).
  unfold extract_with, try_except. rewrite pipeline_cases. cbv zeta.
  rewrite Hex, Hfile, Hst. apply N.ltb_lt in Hpos. rewrite Hpos.
  destruct (bool_decide _); reflexivity.
Qed.

Lemma extract_with_target_kept source again r b c f T :
  (forall r b c f, keeps (target_kept T) (again r b c f)) ->
  keeps (target_kept T) (extract_with source again r b c f).
Proof.
  intros Hagain. destruct (decide (local_target r b f = T)) as [<-|Hne].
  - intros s Hrep. rewrite extract_with_present by done. done.
  - unfold extract_with, pipeline, on_exception, try_except_OSError, mkdir_parents, log.
    keeps_split; target_leaf.
Qed.

Lemma extract_target_kept source r b c f T :
  keeps (target_kept T) (_extract_file_production source r b c f).
Proof.
  apply extract_with_target_kept. intros. apply extract_with_target_kept.
  intros. apply keeps_ret. apply _.
Qed.

Lemma check_root_access_target_kept source T :
  keeps (target_kept T) (check_root_access source).
Proof. unfold check_root_access, log. keeps_split; target_leaf. Qed.

Lemma engine_run_reports source T s s' :
  engine_run source s s' -> reports_nonempty (world s) T -> reports_nonempty (world s') T.
Proof.
  induction 1 as [s | s1 s2 s3 Hstep _ IH]; [done|].
  intros Hrep. apply IH.
  assert (target_kept T s1 s2) as Hkept.
  { destruct Hstep; [apply extract_target_kept | apply check_root_access_target_kept]. }
  destruct (Hkept Hrep). by eapply reports_nonempty_transfer.
Qed.

Lemma size_to_mb_positive n : Qeq_bool (size_to_mb n) 0 = false -> 0 < n.
Proof.
  intros H. destruct (N.eq_dec n 0) as [->|]; [|lia].
  vm_compute in H. discriminate.
Qed.

Lemma bind_ret_inv {A B} (m : M A) (k : A -> M B) s b s' :
  bind m k s = (Ret b, s') -> exists a s1, m s = (Ret a, s1) /\ k a s1 = (Ret b, s').
Proof.
  unfold bind. destruct (m s) as [[a|e] s1]; [eauto | discriminate].
Qed.

Lemma path_exists_true_inv p s s1 :
  path_exists p s = (Ret true, s1) ->
  s1 = s /\ refuses (world s) op_exists p = None /\ is_Some (files (world s) !! p).
Proof.
  unfold path_exists, guarded, gets.
  destruct (refuses (world s) op_exists p); [discriminate|].
  intros H. injection H as Hdec <-. by apply bool_decide_eq_true_1 in Hdec.
Qed.

Lemma get_file_size_inv p s size s1 n :
  _get_file_size_mb p s = (Ret size, s1) -> files (world s) !! p = Some n ->
  s1 = s /\ (size = 0%Q \/ (size = size_to_mb n /\ refuses (world s) op_stat p = None)).
Proof.
  intros H Hfile. unfold _get_file_size_mb, try_except, bind, stat_size, guarded, ret in H.
  destruct (refuses (world s) op_stat p).
  - injection H as <- <-. auto.
  - rewrite Hfile in H. injection H as <- <-. auto.
Qed.

Lemma stored_raise l e s : true_means_stored l (Raise e) s.
Proof. intros H. discriminate. Qed.

Lemma verify_stored source ok r fn l c :
  ensures (true_means_stored l) (verify source ok r fn l c).
Proof.
  intros s. destruct (verify source ok r fn l c s) as [o s'] eqn:Hv. simpl. intros ->.
  unfold verify in Hv.
  apply bind_ret_inv in Hv as (e & s1 & He & Hv).
  destruct e.
  2: { apply bind_ret_inv in Hv as (? & ? & _ & Hv). discriminate. }
  destruct ok; [|discriminate].
  apply path_exists_true_inv in He as (-> & Hex & [n Hfile]).
  apply bind_ret_inv in Hv as (size & s2 & Hsize & Hv).
  apply (get_file_size_inv _ _ _ _ n) in Hsize as (-> & Hsize); [|exact Hfile].
  destruct (Qeq_bool size 0) eqn:Hzero.
  { apply bind_ret_inv in Hv as (? & ? & _ & Hv). discriminate. }
  destruct (Qgt_bool Config.MAX_FILE_SIZE_MB 0 && Qgt_bool size Config.MAX_FILE_SIZE_MB).
  { apply bind_ret_inv in Hv as (? & ? & _ & Hv).
    apply bind_ret_inv in Hv as (? & ? & _ & Hv). discriminate. }
  destruct Hsize as [-> | [-> Hst]]; [vm_compute in Hzero; discriminate|].
  apply size_to_mb_positive in Hzero.
  assert (reports_nonempty (world s) l) as Hrep by (repeat split; eauto).
  unfold _add_to_stats, bind, modify, ret in Hv.
  destruct (is_database r); injection Hv as <-; exact Hrep.
Qed.

Lemma extract_with_stored source again r b c f s :
  (forall s, true_means_stored (local_target r b true)
               (again r b c true s).1 (again r b c true s).2) ->
  true_means_stored (stored_target (world s) r b f)
    (extract_with source again r b c f s).1 (extract_with source again r b c f s).2.
Proof.
  intros Hagain Htrue. revert Htrue.
  unfold extract_with, try_except. rewrite pipeline_cases. cbv zeta.
  assert (forall e s1, (on_exception source r e s1).1 = Ret true -> False) as Hhandler.
  { intros e s1. destruct (on_exception_returns source r e s1) as [s' ->]. discriminate. }
  destruct (bool_decide _); [discriminate|].
  destruct (refuses (world s) op_exists _); [intros H; by apply Hhandler in H|].
  destruct (match files (world s) !! _ with Some _ => _ | None => _ end) as [[|]|e];
    [discriminate | | intros H; by apply Hhandler in H].
  unfold stored_target.
  destruct (refuses (world s) op_mkdir (path_parent (local_target r b f))) as [[|]|] eqn:Hmk.
  - destruct f; [discriminate|]. rewrite Hmk.
    specialize (Hagain (on_self (set_stats (upd_path_errors incr)) s)).
    destruct (again r b c true _) as [[ok|e] s2]; simpl in *;
      [exact Hagain | intros H; by apply Hhandler in H].
  - intros H; by apply Hhandler in H.
  - assert ((if f then local_target r b true
             else match refuses (world s) op_mkdir (path_parent (local_target r b false)) with
                  | Some OSError => local_target r b true
                  | _ => local_target r b false
                  end) = local_target r b f) as ->.
    { destruct f; [done | by rewrite Hmk]. }
    unfold bind.
    destruct (run_methods source r (basename r) (local_target r b f) s) as [[ok|e] s1];
      [|intros H; by apply Hhandler in H].
    pose proof (verify_stored source ok r (basename r) (local_target r b f) c s1) as Hv.
    destruct (verify source ok r (basename r) (local_target r b f) c s1) as [[ok'|e] s2];
      simpl in *; [exact Hv | intros H; by apply Hhandler in H].
Qed.

Lemma extract_stored source r b c f s :
  true_means_stored (stored_target (world s) r b f)
    (_extract_file_production source r b c f s).1
    (_extract_file_production source r b c f s).2.
Proof.
  apply extract_with_stored. intros s0.
  pose proof (extract_with_stored source (fun _ _ _ _ => ret false) r b c true s0) as H.
  apply H. intros s1 Hfalse. discriminate.
Qed.

Lemma keeping_run_reports source T s s' :
  keeping_run source T s s' -> reports_nonempty (world s) T -> reports_nonempty (world s') T.
Proof.
  induction 1 as [s | s1 s2 s3 Hstep _ IH]; [done|].
  intros Hrep. apply IH. destruct Hstep as [s s' Hengine | s st entries | s w Hkeep].
  - assert (target_kept T s s') as Hkept.
    { destruct Hengine; [apply extract_target_kept | apply check_root_access_target_kept]. }
    destruct (Hkept Hrep). by eapply reports_nonempty_transfer.
  - exact Hrep.
  - by apply Hkeep.
Qed.

(** C10.  After a call for [p] has returned true, a call for a path [q] whose
    local target is the file that the first call stored returns false and
    leaves the state as it is, whatever came in between: calls of the engine,
    what the acquisition methods write to the statistics and the log, and
    changes of the surroundings that do not remove or empty the stored file.
    No command reaches the device bridge, the content of [q] is not pulled,
    and no counter of the statistics records the skip. *)
Theorem colliding_target_is_skipped source p bp cp fp q bq cq fq s s2 :
  (_extract_file_production source p bp cp fp s).1 = Ret true ->
  local_target q bq fq = stored_target (world s) p bp fp ->
  keeping_run source (stored_target (world s) p bp fp)
    (_extract_file_production source p bp cp fp s).2 s2 ->
  _extract_file_production source q bq cq fq s2 = (Ret false, s2)
  /\ calls (world (_extract_file_production source q bq cq fq s2).2) = calls (world s2)
  /\ stats (self (_extract_file_production source q bq cq fq s2).2) = stats (self s2).
Proof.
  intros Htrue Htarget Hrun.
  assert (reports_nonempty (world s2) (local_target q bq fq)) as Hrep.
  { rewrite Htarget. eapply keeping_run_reports; [exact Hrun|].
    by apply extract_stored. }
  assert (_extract_file_production source q bq cq fq s2 = (Ret false, s2)) as ->; [|done].
  rewrite _extract_file_production_unfold. by apply extract_with_present.
Qed.

Lemma colliding_target_is_skipped_witness :
  extract main photo_b photo_a_counted = (Ret false, photo_a_counted)
  /\ calls (world (extract main photo_b photo_a_counted).2) = calls (world photo_a_counted)
  /\ stats (self (extract main photo_b photo_a_counted).2) = stats (self photo_a_counted).
Proof.
  apply (colliding_target_is_skipped main
           (str "/sdcard/DCIM/Camera/img1.jpg") (str "case/04_MEDIA/photos") (str "media") true
           (str "/sdcard/Pictures/img1.jpg") (str "case/04_MEDIA/photos") (str "media") true
           (start no_refusal (good_device 2097152))).
  - vm_compute. reflexivity.
  - vm_compute. reflexivity.
  - apply rtc_once. apply keep_caller.
Defined.

(** ** The three methods and their order *)

Lemma adb_run source c t s :
  exists s1,
    _adb source c t s
    = (Ret (adb_return (result (answer (world s) {| cmd := c; timeout := t |}))), s1)
    /\ world s1 = world_after (world s) {| cmd := c; timeout := t |}
    /\ has_root (self s1) = has_root (self s)
    /\ temp_counter (self s1) = temp_counter (self s).
Proof.
  unfold _adb, bind, gets, modify, log, ret, answer, world_after.
  destruct (result _); [| destruct source |]; simpl; eauto.
Qed.

Lemma shell_run source c su t s :
  exists s1,
    _shell source c su t s
    = (Ret (adb_return (result (answer (world s)
                                  (shell_call (su && has_root (self s)) c t)))), s1)
    /\ world s1 = world_after (world s) (shell_call (su && has_root (self s)) c t)
    /\ has_root (self s1) = has_root (self s)
    /\ temp_counter (self s1) = temp_counter (self s).
Proof.
  unfold _shell. unfold bind at 1. unfold gets at 1.
  destruct (su && has_root (self s)); apply adb_run.
Qed.

Lemma pulled_ok_run code l s :
  exists o, pulled_ok code l s = (o, s)
            /\ (o = Ret true <-> code = 0%Z /\ reports_nonempty (world s) l).
Proof.
  unfold pulled_ok, reports_nonempty.
  destruct (Z.eqb_spec code 0) as [->|Hcode].
  2: { eexists. split; [reflexivity|]. split; [discriminate | intros [? _]; done]. }
  unfold bind, path_exists, stat_size, guarded, gets, ret.
  destruct (refuses (world s) op_exists l) eqn:Hex.
  { eexists. split; [reflexivity|]. split; [discriminate | intros (_ & ? & _); done]. }
  destruct (files (world s) !! l) as [n|] eqn:Hfile.
  2: { rewrite bool_decide_eq_false_2 by apply is_Some_None.
       eexists. split; [reflexivity|].
       split; [discriminate | intros (_ & _ & _ & n & ? & _); done]. }
  rewrite bool_decide_eq_true_2 by eauto.
  destruct (refuses (world s) op_stat l) eqn:Hst.
  { eexists. split; [reflexivity|]. split; [discriminate | intros (_ & _ & ? & _); done]. }
  rewrite Hfile. eexists. split; [reflexivity|].
  destruct (N.ltb_spec 0 n).
  - split; [|done]. intros _. repeat split; eauto.
  - split; [discriminate|]. intros (_ & _ & _ & m & Hm & ?). simplify_eq. lia.
Qed.

Lemma method1_run source r l s :
  exists o s1,
    method1 source r l s = (o, s1)
    /\ world s1 = world_after (world s) (direct_call r l)
    /\ has_root (self s1) = has_root (self s)
    /\ temp_counter (self s1) = temp_counter (self s)
    /\ (o = Ret true <-> pull_succeeded (world s) (direct_call r l) (world s1) l).
Proof.
  unfold method1.
  destruct (adb_run source [str "pull"; r; l] Config.PULL_TIMEOUT s)
    as (s1 & Hadb & Hworld & Hroot & Htemp).
  rewrite (bind_run _ _ _ _ _ Hadb).
  destruct (pulled_ok_run
              (adb_return (result (answer (world s) (direct_call r l)))).2 l s1)
    as (o & Hok & Hiff).
  exists o, s1. split_and!; done.
Qed.

Lemma method2_run source r fn l s :
  has_root (self s) = true ->
  let temp := temp_path_of (temp_counter (self s) + 1) fn in
  exists o s2,
    method2 source r fn l s = (o, s2)
    /\ world s2 = replay (world s) (staged_calls r temp l)
    /\ has_root (self s2) = has_root (self s)
    /\ (o = Ret true <->
        pull_succeeded (replay (world s) (take 2 (staged_calls r temp l)))
          (direct_call temp l) (world s2) l).
Proof.
  intros Hroot temp. unfold method2.
  unfold bind at 1. unfold modify at 1.
  unfold bind at 1. unfold gets at 1.
  set (s0 := on_self (set_temp_counter incr) s).
  change (temp_path_of (temp_counter (self s0)) fn) with temp.
  assert (has_root (self s0) = true) as Hroot0 by exact Hroot.
  destruct (shell_run source (str "cp " ++ quoted r ++ str " " ++ quoted temp) true 30 s0)
    as (sa & Ha & Hwa & Hra & _).
  rewrite Hroot0 in Ha, Hwa. rewrite (bind_run _ _ _ _ _ Ha).
  destruct (shell_run source (str "chmod 644 " ++ quoted temp) true 5 sa)
    as (sb & Hb & Hwb & Hrb & _).
  rewrite Hra, Hroot0 in Hb, Hwb. rewrite (bind_run _ _ _ _ _ Hb).
  destruct (adb_run source [str "pull"; temp; l] Config.PULL_TIMEOUT sb)
    as (sc & Hc & Hwc & Hrc & _).
  rewrite (bind_run _ _ _ _ _ Hc).
  destruct (shell_run source (str "rm " ++ quoted temp) true 5 sc)
    as (sd & Hd & Hwd & Hrd & _).
  rewrite Hrc, Hrb, Hra, Hroot0 in Hd, Hwd. rewrite (bind_run _ _ _ _ _ Hd).
  destruct (pulled_ok_run
              (adb_return (result (answer (world sb) (direct_call temp l)))).2 l sd)
    as (o & Hok & Hiff).
  exists o, sd.
  assert (world sb = replay (world s) (take 2 (staged_calls r temp l))) as Hsb.
  { simpl. rewrite Hwb, Hwa. reflexivity. }
  split_and!.
  - exact Hok.
  - simpl. rewrite Hwd, Hwc, Hwb, Hwa. reflexivity.
  - congruence.
  - rewrite <- Hsb. exact Hiff.
Qed.

Lemma method3_run source r l s :
  let su := has_root (self s) in
  exists ok s3 t3,
    method3 source r l s = (Ret ok, s3)
    /\ calls (world s3) = calls (world s) ++ t3
    /\ (t3 = [stat_call su r]
        \/ (t3 = [stat_call su r; cat_call su r]
            /\ size_allows_inline (stdout_of (world s) (stat_call su r))))
    /\ (ok = true -> exists n, files (world s3) !! l = Some n /\ 0 < n).
Proof.
  intros su. unfold method3.
  unfold bind at 1. unfold gets at 1. fold su.
  destruct (shell_run source (stat_cmd r) su 30 s) as (sa & Ha & Hwa & Hra & _).
  replace (su && has_root (self s)) with su in Ha, Hwa by (unfold su; by destruct (has_root _)).
  rewrite (bind_run _ _ _ _ _ Ha).
  assert (calls (world sa) = calls (world s) ++ [stat_call su r]) as Hcalls_a.
  { rewrite Hwa. reflexivity. }
  unfold try_except.
  change (adb_return (result (answer (world s) (shell_call su (stat_cmd r) 30)))).1
    with (stdout_of (world s) (stat_call su r)).
  destruct (py_int (strip (stdout_of (world s) (stat_call su r)))) as [file_size|] eqn:Hint.
  2: { exists false, sa, [stat_call su r]. split_and!; [done | done | by left | done]. }
  destruct ((0 <? file_size)%Z && (file_size <? inline_limit)%Z) eqn:Hrange.
  2: { exists false, sa, [stat_call su r]. split_and!; [done | done | by left | done]. }
  apply andb_true_iff in Hrange as [Hlo Hhi].
  apply Z.ltb_lt in Hlo. apply Z.ltb_lt in Hhi.
  assert (size_allows_inline (stdout_of (world s) (stat_call su r))) as Hsize.
  { exists file_size. split_and!; [done | done | exact Hhi]. }
  destruct (shell_run source (cat_cmd r) su 30 sa) as (sb & Hb & Hwb & Hrb & _).
  replace (su && has_root (self sa)) with su in Hb, Hwb
    by (rewrite Hra; unfold su; by destruct (has_root _)).
  rewrite (bind_run _ _ _ _ _ Hb).
  assert (calls (world sb) = calls (world s) ++ [stat_call su r; cat_call su r]) as Hcalls_b.
  { rewrite Hwb. simpl. rewrite Hcalls_a, <- app_assoc. reflexivity. }
  set (reply := adb_return (result (answer (world sa) (shell_call su (cat_cmd r) 30)))).
  destruct ((reply.2 =? 0)%Z && negb (bool_decide (reply.1 = []))).
  2: { exists false, sb, [stat_call su r; cat_call su r].
       split_and!; [done | done | by right | done]. }
  unfold write_text, guarded, bind at 1.
  destruct (refuses (world sb) op_open l).
  { exists false, sb, [stat_call su r; cat_call su r].
    split_and!; [done | done | by right | done]. }
  unfold modify at 1. unfold bind, stat_size, guarded, ret.
  set (sc := on_world _ sb).
  assert (calls (world sc) = calls (world sb)) as Hcalls_c by reflexivity.
  destruct (refuses (world sc) op_stat l).
  { exists false, sc, [stat_call su r; cat_call su r].
    split_and!; [done | congruence | by right | done]. }
  destruct (files (world sc) !! l) as [n|] eqn:Hfile.
  - exists (0 <? n), sc, [stat_call su r; cat_call su r].
    split_and!; [done | congruence | by right |].
    intros Hpos. apply N.ltb_lt in Hpos. eauto.
  - exists false, sc, [stat_call su r; cat_call su r].
    split_and!; [done | congruence | by right | done].
Qed.

Lemma calls_replay w tr : calls (replay w tr) = calls w ++ tr.
Proof.
  revert w. induction tr as [|c tr IH]; intros w; simpl.
  - by rewrite app_nil_r.
  - rewrite IH. simpl. by rewrite <- app_assoc.
Qed.

Lemma replay_app w tr1 tr2 : replay w (tr1 ++ tr2) = replay (replay w tr1) tr2.
Proof. apply fold_left_app. Qed.

Lemma reports_nonempty_file w l :
  reports_nonempty w l -> exists n, files w !! l = Some n /\ 0 < n.
Proof. intros (_ & _ & H). exact H. Qed.

Lemma is_private_guard r :
  negb (startswith r (str "/data/data/")) && negb (startswith r (str "/data/user/"))
  = negb (is_private r).
Proof. unfold is_private. by rewrite negb_orb. Qed.

(** C6.  The commands that one run of the three methods sends to the device
    bridge are those of the direct transfer, then those of the staged copy,
    then those of the inline read, each method at most once.  The direct
    transfer is sent exactly when the device path has none of the two
    private prefixes; the staged copy only with root access; the content is
    read inline only when the size that the stat command printed is strictly
    between 0 and 5 MiB.  A method whose pull succeeded ends the run with
    success; a run that reports failure has tried every applicable method;
    and a run that reports success has left a non-empty local file. *)
Theorem strategy_chain source r fn l s o s' :
  run_methods source r fn l s = (o, s') ->
  let w := world s in
  let su := has_root (self s) in
  let temp := temp_path_of (temp_counter (self s) + 1) fn in
  exists t1 t2 t3,
    calls (world s') = calls w ++ t1 ++ t2 ++ t3
    /\ (t1 = [] \/ t1 = [direct_call r l])
    /\ (t2 = [] \/ t2 = staged_calls r temp l)
    /\ (t3 = [] \/ t3 = [stat_call su r] \/ t3 = [stat_call su r; cat_call su r])
    /\ (t1 <> [] <-> is_private r = false)
    /\ (t2 <> [] -> su = true)
    /\ (t3 = [stat_call su r; cat_call su r] ->
        size_allows_inline (stdout_of (replay w (t1 ++ t2)) (stat_call su r)))
    /\ (t1 <> [] -> pull_succeeded w (direct_call r l) (replay w t1) l ->
        t2 = [] /\ t3 = [] /\ o = Ret true)
    /\ (t2 <> [] ->
        pull_succeeded (replay w (t1 ++ take 2 t2)) (direct_call temp l)
          (replay w (t1 ++ t2)) l ->
        t3 = [] /\ o = Ret true)
    /\ (o = Ret false ->
        (is_private r = false -> t1 <> []) /\ (su = true -> t2 <> []) /\ t3 <> [])
    /\ (o = Ret true -> exists n, files (world s') !! l = Some n /\ 0 < n).
Proof.
  intros Hrun w su temp. unfold run_methods in Hrun. rewrite is_private_guard in Hrun.
  (* the direct transfer *)
  assert (exists o1 s1 t1,
             (if negb (is_private r) then method1 source r l else ret false) s = (o1, s1)
             /\ world s1 = replay w t1
             /\ has_root (self s1) = su
             /\ temp_counter (self s1) = temp_counter (self s)
             /\ (t1 = [] \/ t1 = [direct_call r l])
             /\ (t1 <> [] <-> is_private r = false)
             /\ (t1 = [] -> o1 = Ret false)
             /\ (t1 <> [] ->
                 (o1 = Ret true <-> pull_succeeded w (direct_call r l) (replay w t1) l)))
    as (o1 & s1 & t1 & H1 & Hw1 & Hsu1 & Htc1 & Ht1 & Hpriv & Hskip1 & Hok1).
  { destruct (is_private r); simpl.
    - exists (Ret false), s, []. split_and!; try done; by left.
    - destruct (method1_run source r l s) as (o1 & s1 & Hm & Hw & Hr & Htc & Hiff).
      exists o1, s1, [direct_call r l].
      split_and!; try done; try (by right).
      intros _. change (replay w [direct_call r l]) with (world_after (world s) (direct_call r l)).
      by rewrite <- Hw. }
  unfold bind at 1 in Hrun. rewrite H1 in Hrun.
  destruct o1 as [ok1|e].
  2: { injection Hrun as <- <-. exists t1, [], []. rewrite !app_nil_r.
       split_and!; try done; try (by left).
       - by rewrite Hw1, calls_replay.
       - intros Hne Hsucc. apply (Hok1 Hne) in Hsucc. done. }
  (* the staged copy *)
  unfold bind at 1 in Hrun. unfold gets at 1 in Hrun. rewrite Hsu1 in Hrun.
  assert (exists o2 s2 t2,
             (if negb ok1 && su then method2 source r fn l else ret ok1) s1 = (o2, s2)
             /\ world s2 = replay w (t1 ++ t2)
             /\ has_root (self s2) = su
             /\ (t2 = [] \/ t2 = staged_calls r temp l)
             /\ (t2 <> [] <-> ok1 = false /\ su = true)
             /\ (t2 = [] -> o2 = Ret ok1)
             /\ (t2 <> [] ->
                 (o2 = Ret true <->
                  pull_succeeded (replay w (t1 ++ take 2 t2)) (direct_call temp l)
                    (replay w (t1 ++ t2)) l)))
    as (o2 & s2 & t2 & H2 & Hw2 & Hsu2 & Ht2 & Hwhen2 & Hskip2 & Hok2).
  { destruct (negb ok1 && su) eqn:Hcond.
    - apply andb_true_iff in Hcond as [Hnot Hsu]. apply negb_true_iff in Hnot.
      assert (has_root (self s1) = true) as Hroot1 by congruence.
      pose proof (method2_run source r fn l s1 Hroot1) as Hm2.
      cbv zeta in Hm2. rewrite Htc1 in Hm2. fold temp in Hm2.
      destruct Hm2 as (o2 & s2 & Hm & Hw & Hr & Hiff).
      exists o2, s2, (staged_calls r temp l).
      split_and!; try done.
      + by rewrite replay_app, <- Hw1.
      + congruence.
      + by right.
      + intros _. by rewrite !replay_app, <- Hw1, <- Hw.
    - exists (Ret ok1), s1, []. rewrite app_nil_r.
      split_and!; try done; [by left|].
      split; [done|]. intros [-> ->]. done. }
  unfold bind at 1 in Hrun. rewrite H2 in Hrun.
  assert (t1 <> [] -> pull_succeeded w (direct_call r l) (replay w t1) l ->
          ok1 = true /\ t2 = []) as Hstop1.
  { intros Hne Hsucc. apply (Hok1 Hne) in Hsucc. injection Hsucc as ->.
    split; [done|]. destruct Ht2 as [->| ->]; [done|].
    assert (true = false /\ su = true) as [? _]; [|done]. by apply Hwhen2. }
  destruct o2 as [ok2|e].
  2: { injection Hrun as <- <-. exists t1, t2, []. rewrite !app_nil_r.
       split_and!; try done; try (by left).
       - by rewrite Hw2, calls_replay.
       - intros Hne. by apply Hwhen2.
       - intros Hne Hsucc. destruct (Hstop1 Hne Hsucc) as [_ ->].
         specialize (Hskip2 eq_refl). done.
       - intros Hne Hsucc. apply (Hok2 Hne) in Hsucc. done. }
  (* the inline read *)
  destruct ok2.
  - simpl in Hrun. injection Hrun as <- <-. exists t1, t2, []. rewrite !app_nil_r.
    split_and!; try done; try (by left).
    + by rewrite Hw2, calls_replay.
    + intros Hne. by apply Hwhen2.
    + intros Hne Hsucc. by destruct (Hstop1 Hne Hsucc) as [_ ->].
    + intros _. apply reports_nonempty_file.
      destruct (decide (t2 = [])) as [Ht2nil|Ht2ne].
      * specialize (Hskip2 Ht2nil). injection Hskip2 as <-.
        subst t2. rewrite app_nil_r in Hw2. rewrite Hw2.
        destruct (decide (t1 = [])) as [Ht1nil|Ht1ne]; [by specialize (Hskip1 Ht1nil)|].
        by apply (Hok1 Ht1ne).
      * rewrite Hw2. by apply (Hok2 Ht2ne).
  - simpl in Hrun.
    pose proof (method3_run source r l s2) as Hm3. cbv zeta in Hm3. rewrite Hsu2 in Hm3.
    destruct Hm3 as (ok3 & s3 & t3 & Hm & Hc3 & Ht3 & Hfile).
    rewrite Hm in Hrun. injection Hrun as <- <-.
    exists t1, t2, t3. split_and!; try done.
    + by rewrite Hc3, Hw2, calls_replay, <- !app_assoc.
    + destruct Ht3 as [-> | [-> _]]; auto.
    + intros Hne. by apply Hwhen2.
    + intros ->. destruct Ht3 as [? | [_ Hsize]]; [done|]. by rewrite <- Hw2.
    + intros Hne Hsucc. destruct (Hstop1 Hne Hsucc) as [-> Ht2nil].
      specialize (Hskip2 Ht2nil). done.
    + intros Hne Hsucc. apply (Hok2 Hne) in Hsucc. done.
    + intros _. split_and!.
      * by apply Hpriv.
      * intros Hsu. apply Hwhen2. split; [|done].
        destruct ok1; [|done]. exfalso.
        destruct (decide (t2 = [])) as [Hnil|Hne]; [by specialize (Hskip2 Hnil)|].
        by apply Hwhen2 in Hne as [? _].
      * destruct Ht3 as [-> | [-> _]]; done.
    + intros Htrue. injection Htrue as ->. by apply Hfile.
Qed.

#[local] Instance same_calls_preorder : PreOrder same_calls.
Proof. split; unfold same_calls; [done | intros s1 s2 s3; congruence]. Qed.

Lemma verify_same_calls source ok r fn l c : keeps same_calls (verify source ok r fn l c).
Proof.
  unfold verify, _get_file_size_mb, _add_to_stats, log, unlink.
  keeps_split; try keeps_leaf same_calls.
  all: destruct (files _ !! _); reflexivity.
Qed.

Lemma on_exception_same_calls source r e : keeps same_calls (on_exception source r e).
Proof. unfold on_exception, log. keeps_split; keeps_leaf same_calls. Qed.

(** The commands of a whole call that passes the early tests are those of
    the three methods: neither the verification nor the handler sends
    any. *)
Lemma extract_commands source r b c f s :
  lets_through s r (local_target r b f) ->
  calls (world (_extract_file_production source r b c f s).2)
  = calls (world (run_methods source r (basename r) (local_target r b f) s).2).
Proof.
  intros Hthrough. rewrite _extract_file_production_unfold.
  unfold extract_with, try_except. rewrite pipeline_lets_through by done.
  unfold bind.
  destruct (run_methods source r (basename r) (local_target r b f) s) as [[ok|e] s1].
  - pose proof (verify_same_calls source ok r (basename r) (local_target r b f) c s1) as Hv.
    destruct (verify source ok r (basename r) (local_target r b f) c s1) as [[ok'|e] s2];
      simpl in *; [exact Hv|].
    rewrite <- Hv. apply on_exception_same_calls.
  - apply on_exception_same_calls.
Qed.

Lemma strategy_chain_witness :
  let s := rooted (start no_refusal cat_only_device) in
  let out := run_methods main private_db (str "chat.db") (str "case/chat.db") s in
  out.1 = Ret true
  /\ exists n, files (world out.2) !! str "case/chat.db" = Some n /\ 0 < n.
Proof.
  intros s out.
  assert (out = (Ret true, out.2)) as Hrun by (vm_compute; reflexivity).
  split; [vm_compute; reflexivity|].
  destruct (strategy_chain main private_db (str "chat.db") (str "case/chat.db") s
              (Ret true) out.2 Hrun) as (t1 & t2 & t3 & H).
  apply H. reflexivity.
Defined.

(** The run of the witness, command by command: no direct transfer for a
    private path, the four commands of the staged copy, then the size query
    and the inline read. *)
Example strategy_chain_trace :
  let s := rooted (start no_refusal cat_only_device) in
  let temp := str "/sdcard/Download/amat_1_63ec5ebe.tmp" in
  calls (world (run_methods main private_db (str "chat.db") (str "case/chat.db") s).2)
  = staged_calls private_db temp (str "case/chat.db")
    ++ [stat_call true private_db; cat_call true private_db].
Proof. vm_compute. reflexivity. Qed.


(** ** Scenarios *)

(** A direct transfer of 2 MiB with [flatten=True]: one command, the answer
    true, 2 MiB more in the media total and in the grand total, one more
    file. *)
Example photo_scenario :
  let out := extract amat_data_collection photo_request
               (start no_refusal (good_device 2097152)) in
  out.1 = Ret true
  /\ (media_mb (stats (self out.2)) == 2)%Q
  /\ (total_mb (stats (self out.2)) == 2)%Q
  /\ total_files (stats (self out.2)) = 1%Z
  /\ calls (world out.2)
     = [direct_call (str "/sdcard/DCIM/img1.jpg") (str "case/04_MEDIA/photos/img1.jpg")].
Proof. vm_compute. repeat split; reflexivity. Qed.

(** The same call again: false, and nothing has changed. *)
Example photo_scenario_again :
  extract amat_data_collection photo_request after_photo = (Ret false, after_photo).
Proof. vm_compute. reflexivity. Qed.

(** A structured target whose directory cannot be created: one path error,
    then the flattened retry stores the file directly under the base
    directory. *)
Example flatten_retry_scenario :
  let out := extract main nested_request (start deep_refused (good_device 4096)) in
  out.1 = Ret true
  /\ path_errors (stats (self out.2)) = 1%Z
  /\ files (world out.2) !! str "case/02_APP_DATA/img1.jpg" = Some 4096
  /\ files (world out.2) !! str "case/02_APP_DATA/sdcard/DCIM/img1.jpg" = None.
Proof. vm_compute. repeat split; reflexivity. Qed.

(** A database counts twice: as a file of its category and as a database. *)
Example database_scenario :
  let out := _extract_file_production main private_db (str "case/02_APP_DATA")
               (str "app_data") false (rooted (start no_refusal cat_only_device)) in
  out.1 = Ret true
  /\ databases_acquired (stats (self out.2)) = 1%Z
  /\ total_files (stats (self out.2)) = 1%Z
  /\ temp_counter (self out.2) = 1%Z.
Proof. vm_compute. repeat split; reflexivity. Qed.

(** ** The sanitizer: the shape of the output *)

Lemma sanitize_part_not_nil part : part <> [] -> sanitize_part part <> [].
Proof.
  intros Hne. unfold sanitize_part. rewrite replace_chars_map.
  set (cleaned := map _ part).
  assert (cleaned <> []) as Hc by (unfold cleaned; by destruct part).
  set (undotted := if startswith cleaned [ch_dot] then _ else _).
  assert (undotted <> []) as Hu by (unfold undotted; by destruct (startswith _ _)).
  destruct (100 <? length undotted)%nat; [|done]. by destruct undotted.
Qed.

Lemma sanitized_parts_not_nil parts : Forall (fun w => w <> []) (sanitized_parts parts).
Proof.
  induction parts as [|w ws IH]; simpl; [constructor|].
  destruct w; [done|]. constructor; [by apply sanitize_part_not_nil | done].
Qed.




(** A prefix of a joined string of non-empty parts is a joined string whose
    parts are non-empty up to the last. *)
Lemma take_join_nonempty n parts :
  Forall part_ok parts -> Forall (fun w => w <> []) parts ->
  exists parts', take n (join [ch_slash] parts) = join [ch_slash] parts'
                 /\ Forall part_ok parts'
                 /\ Forall (fun w => w <> []) (removelast parts').
Proof.
  intros Hall. revert n. induction Hall as [|w ws Hw Hws IH]; intros n Hne.
  - exists []. split_and!; [by destruct n | constructor | constructor].
  - inversion Hne as [|? ? Hwne Hwsne]; subst. destruct ws as [|w' ws].
    + exists [take n w]. split_and!; [done | | constructor].
      constructor; [by apply part_ok_take | done].
    + rewrite join_cons, take_app.
      destruct (n - length w)%nat as [|k] eqn:Hk.
      * exists [take n w]. rewrite take_0, app_nil_r.
        split_and!; [done | | constructor].
        constructor; [by apply part_ok_take | done].
      * rewrite take_ge by lia. cbn [take firstn].
        destruct (IH k Hwsne) as (parts' & Htake & Hparts' & Hne').
        change (firstn k) with (@take ascii k). rewrite Htake.
        destruct parts' as [|p ps].
        -- exists [w; []]. split_and!; [done | |].
           ++ constructor; [done | constructor; [apply part_ok_nil | constructor]].
           ++ cbn. by constructor.
        -- exists (w :: p :: ps). split_and!; [done | by constructor |].
           change (removelast (w :: p :: ps)) with (w :: removelast (p :: ps)).
           by constructor.
Qed.

Lemma extend_last_nonempty parts suffix :
  suffix <> [] -> Forall (fun w => w <> []) (removelast parts) ->
  Forall (fun w : pystr => w <> []) (extend_last parts suffix).
Proof.
  intros Hsuf Hall. destruct parts as [|w ws]; [by repeat constructor|].
  unfold extend_last. apply Forall_app. split; [done|].
  constructor; [|constructor]. intros Happ. apply app_eq_nil in Happ as [_ ?]. done.
Qed.

(** The output is the joined string of its components, none of which is
    empty, has a slash or begins with a dot. *)
Lemma sanitize_path_shape path :
  exists parts,
    _sanitize_path path = join [ch_slash] parts
    /\ Forall (fun w => ch_slash ∉ w) parts
    /\ Forall (fun w => w <> []) parts
    /\ Forall (component_ok 109) parts.
Proof.
  assert (Forall part_ok (sanitized_parts (split_on ch_slash path))) as Hparts.
  { apply sanitized_parts_ok, split_on_parts_no_sep. }
  pose proof (sanitized_parts_not_nil (split_on ch_slash path)) as Hne.
  destruct (Z.le_gt_cases (Z.of_nat (length (sanitized_join path))) Config.MAX_PATH_LENGTH)
    as [Hle|Hgt].
  - exists (sanitized_parts (split_on ch_slash path)).
    rewrite sanitize_path_short by done. split_and!; [done | | done |].
    + eapply Forall_impl; [exact Hparts|]. by intros ? (? & _).
    + eapply Forall_impl; [exact Hparts|]. intros ? (_ & ? & _).
      eapply component_ok_weaken; [|done]. lia.
  - rewrite sanitize_path_long by lia. unfold sanitized_join.
    destruct (take_join_nonempty 190 _ Hparts Hne) as (parts' & -> & Hparts' & Hne').
    set (suffix := [ch_underscore] ++ md5_hex8 (join [ch_slash] (sanitized_parts _))).
    assert (Forall (fun c => is_hex c = true) (md5_hex8 (sanitized_join path))) as Hhex
      by apply md5_hex8_is_hex.
    exists (extend_last parts' suffix). rewrite join_extend_last. split_and!; [done | | |].
    + apply extend_last_no_sep; [done|].
      unfold suffix. intros Hin. apply elem_of_app in Hin as [Hin|Hin].
      * apply list_elem_of_singleton in Hin. discriminate.
      * rewrite Forall_forall in Hhex. apply (Hhex ch_slash) in Hin. discriminate.
    + by apply extend_last_nonempty.
    + apply extend_last_components; [done | | done].
      unfold suffix. rewrite length_app, length_md5_hex8. simpl. lia.
Qed.




(** X2.  Leading slashes make no difference to the sanitizer, so the
    [lstrip('/')] of the pipeline is absorbed: without flattening, the local
    target is the base directory joined with the sanitized device path. *)
Theorem sanitize_path_lstrip_slash (path local_base_dir : pystr) :
  _sanitize_path (lstrip_slash path) = _sanitize_path path
  /\ local_target path local_base_dir false = path_join local_base_dir (_sanitize_path path).
Proof.
  assert (sanitized_join (lstrip_slash path) = sanitized_join path) as Hjoin.
  { unfold sanitized_join. f_equal.
    induction path as [|c p IH]; [done|]. cbn [lstrip_slash split_on].
    destruct (Ascii.eqb_spec c ch_slash) as [->|Hc]; [exact IH|].
    cbn [split_on]. by destruct (Ascii.eqb_spec c ch_slash). }
  assert (_sanitize_path (lstrip_slash path) = _sanitize_path path) as Hs.
  { unfold _sanitize_path. by rewrite Hjoin. }
  split; [exact Hs|]. unfold local_target. by rewrite Hs.
Qed.

Lemma clean_char_id c : is_invalid c = false -> clean_char c = c.
Proof. destruct c as [[] [] [] [] [] [] [] []]; vm_compute; congruence. Qed.

Lemma sanitize_part_fixed w : part_ok w -> sanitize_part w = w.
Proof.
  intros (_ & [Hlen Hdot] & Hclean). unfold sanitize_part. rewrite replace_chars_map.
  fold clean_char.
  assert (map clean_char w = w) as ->.
  { clear Hlen Hdot. induction Hclean as [|c w Hc _ IH]; [done|].
    cbn [map]. rewrite IH. by rewrite clean_char_id. }
  rewrite Hdot. destruct (Nat.ltb_spec 100 (length w)); [lia | done].
Qed.

Lemma sanitized_parts_fixed parts :
  Forall part_ok parts -> Forall (fun w => w <> []) parts -> sanitized_parts parts = parts.
Proof.
  induction 1 as [|w ws Hw _ IH]; intros Hne; [done|].
  inversion Hne; subst. simpl. destruct w; [done|].
  by rewrite sanitize_part_fixed, IH.
Qed.

Lemma sanitized_join_fixed path : sanitized_join (sanitized_join path) = sanitized_join path.
Proof.
  unfold sanitized_join at 2 3.
  assert (Forall part_ok (sanitized_parts (split_on ch_slash path))) as Hparts.
  { apply sanitized_parts_ok, split_on_parts_no_sep. }
  pose proof (sanitized_parts_not_nil (split_on ch_slash path)) as Hne.
  destruct (sanitized_parts (split_on ch_slash path)) as [|w ws] eqn:Hp; [done|].
  unfold sanitized_join. rewrite split_on_join; [| done |].
  - by rewrite sanitized_parts_fixed.
  - eapply Forall_impl; [exact Hparts|]. by intros ? (? & _).
Qed.

(** X3.  A path that the sanitizer did not have to cut is left alone by a
    second pass: on inputs whose joined string is within the limit of 200
    characters, [_sanitize_path] is idempotent. *)
Theorem sanitize_path_idempotent (path : pystr) :
  (Z.of_nat (length (sanitized_join path)) <= Config.MAX_PATH_LENGTH)%Z ->
  _sanitize_path (_sanitize_path path) = _sanitize_path path.
Proof.
  intros Hle. rewrite (sanitize_path_short path) by done.
  rewrite sanitize_path_short; rewrite sanitized_join_fixed; done.
Qed.

Lemma sanitize_path_idempotent_witness :
  _sanitize_path (_sanitize_path (str "//sdcard/.thumbnails//a?b.jpg/"))
  = _sanitize_path (str "//sdcard/.thumbnails//a?b.jpg/").
Proof. apply sanitize_path_idempotent. vm_compute. discriminate. Defined.

Lemma join_split_on p : join [ch_slash] (split_on ch_slash p) = p.
Proof.
  induction p as [|c p IH]; [done|]. cbn [split_on].
  destruct (Ascii.eqb_spec c ch_slash) as [->|Hc].
  - destruct (split_on ch_slash p) as [|w ws] eqn:Hp; [by destruct p|].
    rewrite join_cons. by rewrite IH.
  - destruct (split_on ch_slash p) as [|w [|w' ws]] eqn:Hp.
    + by destruct p.
    + cbn in IH |- *. by rewrite IH.
    + rewrite join_cons in IH. rewrite join_cons. cbn [app]. by rewrite IH.
Qed.

Lemma join_parts_clean parts :
  Forall (fun c => is_invalid c = false) (join [ch_slash] parts) ->
  Forall (fun w => Forall (fun c => is_invalid c = false) w) parts.
Proof.
  induction parts as [|w [|w' ws] IH]; intros Hall.
  - constructor.
  - by repeat constructor.
  - rewrite join_cons in Hall. apply Forall_app in Hall as [Hw Hrest].
    inversion Hrest; subst. constructor; [done | by apply IH].
Qed.

(** X4.  A path that is already clean is stored under its own name: when
    no character of the path is illegal, every component is non-empty, has
    at most 100 characters and does not begin with a dot, and the path has
    at most 200 characters, [_sanitize_path] returns it unchanged. *)
Theorem clean_path_is_unchanged (path : pystr) :
  Forall (fun c => is_invalid c = false) path ->
  Forall (fun comp => comp <> [] /\ component_ok 100 comp) (split_on ch_slash path) ->
  (length path <= 200)%nat ->
  _sanitize_path path = path.
Proof.
  intros Hclean Hcomp Hlen.
  assert (sanitized_join path = path) as Hjoin.
  { unfold sanitized_join. rewrite sanitized_parts_fixed.
    - apply join_split_on.
    - rewrite <- (join_split_on path) in Hclean. apply join_parts_clean in Hclean.
      pose proof (split_on_parts_no_sep path) as Hsep.
      rewrite Forall_forall in Hclean, Hcomp, Hsep |- *. intros w Hw.
      split_and!; [by apply Hsep | by apply Hcomp | by apply Hclean].
    - eapply Forall_impl; [exact Hcomp|]. by intros w [? _]. }
  rewrite sanitize_path_short; rewrite Hjoin; [done|].
  unfold Config.MAX_PATH_LENGTH. lia.
Qed.

Lemma clean_path_is_unchanged_witness :
  _sanitize_path (str "sdcard/DCIM/Camera/img_0001.jpg") = str "sdcard/DCIM/Camera/img_0001.jpg".
Proof.
  apply clean_path_is_unchanged.
  - apply (bool_decide_unpack _). vm_compute. exact I.
  - unfold component_ok. apply (bool_decide_unpack _). vm_compute. exact I.
  - vm_compute. lia.
Defined.

Lemma last_Forall {A} (P : A -> Prop) l d : Forall P l -> P d -> P (List.last l d).
Proof.
  intros Hall Hd. induction Hall as [|x l Hx Hl IH]; [done|].
  destruct l; [done|]. exact IH.
Qed.

Lemma basename_no_sep p : ch_slash ∉ basename p.
Proof.
  unfold basename. apply (last_Forall (fun w => ch_slash ∉ w)).
  - apply split_on_parts_no_sep.
  - apply not_elem_of_nil.
Qed.

(** X5.  With [flatten=True] the local file name is one component: the
    sanitized base name has no slash and at most 100 characters, and is
    never cut to 190 characters and given a hash suffix; it is the
    sanitized only part of the base name. *)
Theorem flattened_name_is_one_component (remote_path local_base_dir : pystr) :
  let safe_filename := _sanitize_path (basename remote_path) in
  local_target remote_path local_base_dir true = path_join local_base_dir safe_filename
  /\ (ch_slash ∉ safe_filename)
  /\ (length safe_filename <= 100)%nat
  /\ safe_filename = match basename remote_path with
                     | [] => []
                     | _ => sanitize_part (basename remote_path)
                     end.
Proof.
  intros safe_filename.
  pose proof (basename_no_sep remote_path) as Hsep.
  assert (sanitized_join (basename remote_path)
          = match basename remote_path with
            | [] => []
            | _ => sanitize_part (basename remote_path)
            end) as Hjoin.
  { unfold sanitized_join. rewrite split_on_no_sep by done.
    by destruct (basename remote_path). }
  pose proof (sanitize_part_ok _ Hsep) as (Hs & [Hlen _] & _).
  assert ((ch_slash ∉ sanitized_join (basename remote_path))
          /\ (length (sanitized_join (basename remote_path)) <= 100)%nat) as [Hs' Hlen'].
  { rewrite Hjoin. destruct (basename remote_path) eqn:Hbase.
    - split; [apply not_elem_of_nil | simpl; lia].
    - split; [exact Hs | exact Hlen]. }
  assert (safe_filename = sanitized_join (basename remote_path)) as Hsafe.
  { apply sanitize_path_short. unfold Config.MAX_PATH_LENGTH. lia. }
  split_and!; [done | by rewrite Hsafe | by rewrite Hsafe | by rewrite Hsafe].
Qed.

Lemma replace_slash_clean s :
  Forall (fun c => is_invalid c = false) s ->
  Forall (fun c => is_invalid c = false) (replace_char ch_slash ch_underscore s).
Proof.
  intros Hall. unfold replace_char. apply Forall_fmap.
  eapply Forall_impl; [exact Hall|]. intros c Hc. simpl.
  by destruct (Ascii.eqb c ch_slash).
Qed.

Lemma replace_slash_no_sep s : ch_slash ∉ replace_char ch_slash ch_underscore s.
Proof.
  unfold replace_char. intros Hin. apply list_elem_of_fmap in Hin as (c & Hc & _).
  by destruct (Ascii.eqb_spec c ch_slash).
Qed.

(** X6.  The names derived from sanitized paths.  The [safe_name] of a
    memory-map file (the sanitized process name with its slashes replaced,
    cut to 50 characters) has at most 50 characters, no slash and none of
    the illegal characters, so [maps_<pid>_<safe_name>.txt] is one file name.
    The [safe_name] of an application directory (the sanitized package name
    cut to 100 characters) has at most 100 characters, none of the illegal
    characters, and no slash in front. *)
Theorem derived_names_are_safe (name : pystr) :
  ((length (maps_safe_name name) <= 50)%nat
   /\ (ch_slash ∉ maps_safe_name name)
   /\ Forall (fun c => is_invalid c = false) (maps_safe_name name))
  /\ ((length (app_safe_name name) <= 100)%nat
      /\ Forall (fun c => is_invalid c = false) (app_safe_name name)
      /\ startswith (app_safe_name name) [ch_slash] = false).
Proof.
  destruct (sanitize_path_guarantees name) as (Hclean & _ & _).
  unfold maps_safe_name, app_safe_name, py_take. simpl. split_and!.
  - rewrite length_take. lia.
  - intros Hin. apply in_take in Hin. by apply replace_slash_no_sep in Hin.
  - by apply Forall_take, replace_slash_clean.
  - rewrite length_take. lia.
  - by apply Forall_take.
  - destruct (sanitize_path_shape name) as (parts & Hout & Hsep & Hne & _).
    rewrite Hout. destruct Hne as [|w ws Hw _]; [done|].
    inversion Hsep as [|? ? Hwsep _]; subst.
    destruct w as [|c w]; [done|]. apply not_elem_of_cons in Hwsep as [Hc _].
    assert (forall rest, startswith (take 100 (c :: rest)) [ch_slash] = false) as Hstart.
    { intros rest. cbn [take startswith]. by destruct (Ascii.eqb_spec ch_slash c). }
    destruct ws; [apply Hstart|]. rewrite join_cons. apply Hstart.
Qed.

(** *** Staging names *)

Lemma to_uint_not_nil p : Pos.to_uint p <> Decimal.Nil.
Proof.
  intros H. pose proof (DecimalPos.Unsigned.of_to p) as Hof.
  rewrite H in Hof. discriminate.
Qed.

Lemma str_of_int_inj a b : str_of_int a = str_of_int b -> a = b.
Proof.
  unfold str_of_int. intros H.
  apply (f_equal string_of_list_ascii) in H.
  rewrite !string_of_list_ascii_of_string in H.
  apply (f_equal DecimalString.NilZero.int_of_string) in H.
  rewrite !DecimalString.NilZero.isi in H.
  - apply DecimalZ.to_int_inj. congruence.
  - destruct b; simpl; try discriminate. intros [=H']. by apply to_uint_not_nil in H'.
  - destruct b; simpl; try discriminate. intros [=H']. by apply to_uint_not_nil in H'.
  - destruct a; simpl; try discriminate. intros [=H']. by apply to_uint_not_nil in H'.
  - destruct a; simpl; try discriminate. intros [=H']. by apply to_uint_not_nil in H'.
Qed.

#[local] Instance counter_kept_preorder : PreOrder counter_kept.
Proof. split; unfold counter_kept; [intros s | intros s1 s2 s3]; congruence. Qed.

Lemma method2_counter source r fn l s :
  temp_counter (self (method2 source r fn l s).2) = (temp_counter (self s) + 1)%Z.
Proof.
  assert (forall temp_path,
            keeps counter_kept
              (_shell source (str "cp " ++ quoted r ++ str " " ++ quoted temp_path) true 30 ;;
               _shell source (str "chmod 644 " ++ quoted temp_path) true 5 ;;
               res <- _adb source [str "pull"; temp_path; l] Config.PULL_TIMEOUT ;;
               _shell source (str "rm " ++ quoted temp_path) true 5 ;;
               pulled_ok res.2 l)) as Hrest.
  { intros temp_path. unfold _shell, _adb, pulled_ok, log.
    keeps_split; keeps_leaf counter_kept. }
  unfold method2. unfold bind at 1, modify at 1. unfold bind at 1, gets at 1.
  cbv zeta. rewrite Hrest. reflexivity.
Qed.

(** X7.  Staging names.  The staging path of the root copy determines the
    counter it was built from: two staging paths are equal only when their
    counters are equal (and the hashes of the file names agree).  Each root
    copy leaves the counter at the number it has used, one above the number
    before. *)
Theorem staging_names_differ :
  (forall counter counter' filename filename',
     temp_path_of counter filename = temp_path_of counter' filename'
     <-> counter = counter' /\ md5_hex8 filename = md5_hex8 filename')
  /\ (forall source r fn l s,
        temp_counter (self (method2 source r fn l s).2) = (temp_counter (self s) + 1)%Z).
Proof.
  split; [|apply method2_counter].
  intros counter counter' filename filename'.
  split; [|by intros [-> H]; unfold temp_path_of; rewrite H].
  unfold temp_path_of. intros H.
  apply app_inv_head in H. apply app_inv_head in H.
  apply app_inj_2 in H as [Hc Ht].
  - apply str_of_int_inj in Hc. apply app_inv_head in Ht.
    apply app_inv_tail in Ht. done.
  - rewrite !length_app, !length_md5_hex8. done.
Qed.

(** ** The engine: the flattened retry, and what a failed call leaves *)

(** A call with [flatten=True] does not call itself. *)
Lemma extract_with_flat source again again' r b c s :
  extract_with source again r b c true s = extract_with source again' r b c true s.
Proof. unfold extract_with, try_except. by rewrite !pipeline_cases. Qed.

Lemma extract_total source r b c f s :
  exists o s', _extract_file_production source r b c f s = (Ret o, s').
Proof.
  apply extract_with_total. intros. apply extract_with_total. intros. by eexists _, _.
Qed.

(** X8.  The flattened retry.  When the parent directory of the structured
    target cannot be created ([mkdir] raises [OSError]) in a call with
    [flatten=False] that has passed the two skip tests, the call is the
    call with [flatten=True] made after [path_errors] has been incremented:
    same answer, same final state. *)
Theorem flatten_retry source r b c s :
  let l := local_target r b false in
  r ∉ extracted_files (self s) ->
  refuses (world s) op_exists l = None ->
  (files (world s) !! l = None
   \/ (files (world s) !! l = Some 0 /\ refuses (world s) op_stat l = None)) ->
  refuses (world s) op_mkdir (path_parent l) = Some OSError ->
  _extract_file_production source r b c false s
  = _extract_file_production source r b c true
      (on_self (set_stats (upd_path_errors incr)) s).
Proof.
  intros l Hnew Hex Hfile Hmk.
  rewrite _extract_file_production_unfold.
  unfold extract_with at 1, try_except. rewrite pipeline_cases. cbv zeta.
  rewrite bool_decide_eq_false_2 by done. fold l. rewrite Hex.
  assert (match files (world s) !! l with
          | Some n => match refuses (world s) op_stat l with
                      | Some e => Raise e
                      | None => Ret (0 <? n)
                      end
          | None => Ret false
          end = Ret false) as ->.
  { destruct Hfile as [-> | [-> ->]]; done. }
  rewrite Hmk. cbn [negb].
  destruct (extract_total source r b c true (on_self (set_stats (upd_path_errors incr)) s))
    as (o & s' & ->).
  done.
Qed.

Lemma flatten_retry_witness :
  extract main nested_request (start deep_refused (good_device 4096))
  = _extract_file_production main (str "/sdcard/DCIM/img1.jpg") (str "case/02_APP_DATA")
      (str "app_data") true
      (on_self (set_stats (upd_path_errors incr)) (start deep_refused (good_device 4096))).
Proof.
  apply (flatten_retry main (str "/sdcard/DCIM/img1.jpg") (str "case/02_APP_DATA")
           (str "app_data") (start deep_refused (good_device 4096))).
  - vm_compute. set_solver.
  - reflexivity.
  - left. reflexivity.
  - vm_compute. reflexivity.
Defined.



(** ** The engine: what a call does to the books *)

Lemma accounted_refl r o s : o <> Ret true -> accounted r s o s.
Proof. intros Ho. unfold accounted. destruct o as [[]|]; done. Qed.

(** The state before the call may be replaced by one with the same books. *)
Lemma accounted_from r s0 s o s' :
  stats (self s) = stats (self s0) -> extracted_files (self s) = extracted_files (self s0) ->
  accounted r s o s' -> accounted r s0 o s'.
Proof. unfold accounted. intros -> ->. done. Qed.

Lemma accounted_path_error r s o s' :
  accounted r (on_self (set_stats (upd_path_errors incr)) s) o s' -> accounted r s o s'.
Proof. unfold accounted. simpl. done. Qed.

Lemma on_exception_run source r e s :
  exists s', on_exception source r e s = (Ret false, s')
             /\ extracted_files (self s') = extracted_files (self s)
             /\ stats (self s') = upd_extraction_errors incr (stats (self s))
             /\ world s' = world s.
Proof.
  unfold on_exception, bind, modify, gets, log, ret. destruct source; simpl.
  - destruct (_ <? _)%Z; simpl; eauto.
  - eauto.
Qed.

Lemma accounted_handler source r e s s1 :
  accounted r s (Raise e) s1 ->
  accounted r s (on_exception source r e s1).1 (on_exception source r e s1).2.
Proof.
  destruct (on_exception_run source r e s1) as (s' & -> & Hext & Hst & _).
  unfold accounted. simpl. rewrite Hext, Hst. simpl. done.
Qed.

Lemma verify_accounted source ok r fn l c s :
  r ∉ extracted_files (self s) ->
  accounted r s (verify source ok r fn l c s).1 (verify source ok r fn l c s).2.
Proof.
  intros Hnew. destruct (verify source ok r fn l c s) as [o s'] eqn:Hrun.
  unfold verify, _get_file_size_mb, _add_to_stats, unlink, log, path_exists, stat_size,
    guarded, try_except, bind, gets, modify, ret in Hrun.
  unfold accounted.
  repeat (case_match; simplify_eq; simpl in *; try done).
  all: unfold incr; split_and!; try done; lia.
Qed.

Lemma extract_with_accounted source again r b c f s :
  (forall s, accounted r s (again r b c true s).1 (again r b c true s).2) ->
  accounted r s (extract_with source again r b c f s).1
    (extract_with source again r b c f s).2.
Proof.
  intros Hagain. unfold extract_with, try_except. rewrite pipeline_cases. cbv zeta.
  set (l := local_target r b f).
  destruct (bool_decide (r ∈ extracted_files (self s))) eqn:Hdup; [by apply accounted_refl|].
  apply bool_decide_eq_false in Hdup.
  destruct (refuses (world s) op_exists l).
  { apply accounted_handler. by apply accounted_refl. }
  destruct (match files (world s) !! l with
            | Some n => match refuses (world s) op_stat l with
                        | Some e => Raise e
                        | None => Ret (0 <? n)
                        end
            | None => Ret false
            end) as [[]|e].
  - by apply accounted_refl.
  - destruct (refuses (world s) op_mkdir (path_parent l)) as [[]|].
    + destruct f.
      * by apply accounted_path_error, accounted_refl.
      * apply accounted_path_error.
        pose proof (Hagain (on_self (set_stats (upd_path_errors incr)) s)) as H.
        destruct (again r b c true _) as [[o|e] s']; [exact H|].
        by apply accounted_handler.
    + apply accounted_handler. by apply accounted_refl.
    + pose proof (run_methods_bookkeeping source r (basename r) l s) as Hkeep.
      unfold bind. destruct (run_methods source r (basename r) l s) as [[ok|e] s1].
      * destruct Hkeep as (Hst & Hext & _). simpl in Hst, Hext.
        assert (r ∉ extracted_files (self s1)) as Hnew by (by rewrite Hext).
        pose proof (verify_accounted source ok r (basename r) l c s1 Hnew) as H.
        apply (accounted_from r s s1) in H; [| done | done].
        destruct (verify source ok r (basename r) l c s1) as [[o|e] s']; [exact H|].
        by apply accounted_handler.
      * destruct Hkeep as (Hst & Hext & _). simpl in Hst, Hext.
        apply accounted_handler. apply (accounted_from r s s1); [done | done |].
        by apply accounted_refl.
  - apply accounted_handler. by apply accounted_refl.
Qed.

Lemma extract_accounted source r b c f s :
  accounted r s (_extract_file_production source r b c f s).1
    (_extract_file_production source r b c f s).2.
Proof.
  apply extract_with_accounted. intros s1. apply extract_with_accounted.
  intros s2. by apply accounted_refl.
Qed.

(** X10.  The books of one call.  A call that returns true was for a path
    that was not in the extracted set, and it adds exactly that path, counts
    exactly one file, counts one database exactly when the path has one of
    the four database suffixes, and counts no failure and no extraction
    error.  A call that returns false leaves the extracted set, the file
    count, the database count and the seven megabyte totals as they were. *)
Theorem extract_accounting source r b c f s :
  let out := _extract_file_production source r b c f s in
  let st := stats (self s) in
  let st' := stats (self out.2) in
  (out.1 = Ret true ->
   (r ∉ extracted_files (self s))
   /\ extracted_files (self out.2) = extracted_files (self s) ∪ {[r]}
   /\ total_files st' = (total_files st + 1)%Z
   /\ databases_acquired st' = (databases_acquired st + if is_database r then 1 else 0)%Z
   /\ failed_files st' = failed_files st
   /\ extraction_errors st' = extraction_errors st)
  /\ (out.1 = Ret false ->
      extracted_files (self out.2) = extracted_files (self s)
      /\ total_files st' = total_files st
      /\ databases_acquired st' = databases_acquired st
      /\ size_totals st' = size_totals st).
Proof.
  intros out st st'. pose proof (extract_accounted source r b c f s) as H.
  fold out in H. unfold accounted in H. cbv zeta in H. fold st st' in H.
  split; intros Hout; rewrite Hout in H; exact H.
Qed.

(** ** Dedup: two calls in a row *)

(** C2, as amended.  Of two calls in a row for the same device path, at most
    one returns true; and if the first one returned true, the second returns
    false and leaves the whole state, statistics included, as it is.  A first
    call that returned false has left the extracted set as it was: no record
    of it stops the second call. *)
Theorem dedup_after_success source r b c f b' c' f' s :
  let first := _extract_file_production source r b c f s in
  let second := _extract_file_production source r b' c' f' first.2 in
  (first.1 = Ret true ->
   second = (Ret false, first.2) /\ stats (self second.2) = stats (self first.2))
  /\ ~ (first.1 = Ret true /\ second.1 = Ret true)
  /\ (first.1 = Ret false -> extracted_files (self first.2) = extracted_files (self s)).
Proof.
  intros first second.
  assert (first.1 = Ret true -> second = (Ret false, first.2)) as Hdup.
  { intros Htrue. apply extract_duplicate. by apply extract_recorded. }
  split_and!.
  - intros Htrue. rewrite (Hdup Htrue). done.
  - intros [Htrue Hsecond]. rewrite (Hdup Htrue) in Hsecond. discriminate.
  - intros Hfalse. pose proof (extract_accounted source r b c f s) as H.
    fold first in H. rewrite Hfalse in H. by destruct H as (? & _).
Qed.

Lemma dedup_after_success_witness :
  let first := extract main photo_request (start no_refusal (good_device 2097152)) in
  let second := extract main photo_request first.2 in
  first.1 = Ret true /\ second = (Ret false, first.2)
  /\ stats (self second.2) = stats (self first.2).
Proof.
  intros first second.
  assert (first.1 = Ret true) as Htrue by (vm_compute; reflexivity).
  split; [exact Htrue|].
  exact (proj1 (dedup_after_success main (str "/sdcard/DCIM/img1.jpg")
                  (str "case/04_MEDIA/photos") (str "media") true
                  (str "case/04_MEDIA/photos") (str "media") true
                  (start no_refusal (good_device 2097152))) Htrue).
Defined.

(** ** The size ceiling: every way to the methods *)

(** With [flatten=False] and a parent directory that cannot be created, the
    call is the flattened call after the increment of [path_errors]. *)
Lemma retry_runs_flat source r b c s :
  r ∉ extracted_files (self s) ->
  refuses (world s) op_exists (local_target r b false) = None ->
  (files (world s) !! local_target r b false = None
   \/ (files (world s) !! local_target r b false = Some 0
       /\ refuses (world s) op_stat (local_target r b false) = None)) ->
  refuses (world s) op_mkdir (path_parent (local_target r b false)) = Some OSError ->
  _extract_file_production source r b c false s
  = _extract_file_production source r b c true
      (on_self (set_stats (upd_path_errors incr)) s).
Proof.
  intros Hnew Hex Hfile Hmk.
  rewrite _extract_file_production_unfold.
  unfold extract_with at 1, try_except. rewrite pipeline_cases. cbv zeta.
  rewrite bool_decide_eq_false_2 by done. rewrite Hex.
  destruct Hfile as [Hfile | [Hfile Hstat]]; rewrite Hfile, ?Hstat; cbn [N.ltb N.compare];
    rewrite Hmk; cbn [negb];
    destruct (extract_total source r b c true (on_self (set_stats (upd_path_errors incr)) s))
      as (o & s' & ->); reflexivity.
Qed.

(** C7, as amended.  Whichever way a call gets to its methods (let through
    by its early tests, or through the flattened retry), when the methods
    succeed and the workstation then reports a file above the ceiling of
    500 MiB at the target, the call deletes the file and returns false.  The
    oversized outcome is counted nowhere: the statistics are those of before
    the call, but for [path_errors], which is one higher when the retry was
    taken; [failed_files] is not incremented, and the path is not recorded
    as extracted.  [amat_data_collection.py] writes one log entry, [main.py]
    none. *)
Theorem oversized_is_discarded source r b c f s s1 n :
  let l := stored_target (world s) r b f in
  reaches_methods s r b f ->
  run_methods source r (basename r) l (methods_start s r b f) = (Ret true, s1) ->
  reports_oversized (world s1) l n ->
  refuses (world s1) op_unlink l = None ->
  let out := _extract_file_production source r b c f s in
  out.1 = Ret false
  /\ files (world out.2) = delete l (files (world s1))
  /\ stats (self out.2)
     = (if retried (world s) r b f then upd_path_errors incr (stats (self s))
        else stats (self s))
  /\ failed_files (stats (self out.2)) = failed_files (stats (self s))
  /\ extracted_files (self out.2) = extracted_files (self s)
  /\ log_entries (self out.2)
     = log_entries (self s1)
       ++ match source with
          | amat_data_collection => [skipped_entry n (basename r)]
          | main => []
          end.
Proof.
  intros l Hreach Hrun Hbig Hunlink out.
  destruct Hreach as [Hthrough | (-> & Hnew & Hex & Hfile & Hmk & Hthrough)].
  - assert (refuses (world s) op_mkdir (path_parent (local_target r b f)) = None) as Hmk
      by apply Hthrough.
    assert (retried (world s) r b f = false) as Hretried.
    { unfold retried. destruct f; [done|]. by rewrite Hmk. }
    assert (l = local_target r b f) as Hl.
    { unfold l, stored_target. destruct f; [done|]. by rewrite Hmk. }
    unfold methods_start in Hrun. rewrite Hretried in Hrun |- *. rewrite Hl in *.
    exact (oversized_through source r b c f s s1 n Hthrough Hrun Hbig Hunlink).
  - assert (retried (world s) r b false = true) as Hretried.
    { unfold retried. by rewrite Hmk. }
    assert (l = local_target r b true) as Hl.
    { unfold l, stored_target. by rewrite Hmk. }
    unfold methods_start in Hrun. rewrite Hretried in Hrun |- *. rewrite Hl in *.
    unfold out. rewrite (retry_runs_flat source r b c s Hnew Hex Hfile Hmk).
    exact (oversized_through source r b c true _ s1 n Hthrough Hrun Hbig Hunlink).
Qed.

Lemma oversized_is_discarded_witness :
  let s := start deep_refused (good_device huge) in
  let out := _extract_file_production amat_data_collection (str "/sdcard/DCIM/img1.jpg")
               (str "case/02_APP_DATA") (str "app_data") false s in
  out.1 = Ret false
  /\ files (world out.2) !! str "case/02_APP_DATA/img1.jpg" = None
  /\ stats (self out.2) = upd_path_errors incr stats_init
  /\ failed_files (stats (self out.2)) = 0%Z.
Proof.
  intros s out.
  pose proof (oversized_is_discarded amat_data_collection (str "/sdcard/DCIM/img1.jpg")
                (str "case/02_APP_DATA") (str "app_data") false s
                (run_methods amat_data_collection (str "/sdcard/DCIM/img1.jpg")
                   (str "img1.jpg") (str "case/02_APP_DATA/img1.jpg")
                   (on_self (set_stats (upd_path_errors incr)) s)).2 huge) as H.
  cbv zeta in H. destruct H as (Hret & Hfiles & Hstats & Hfailed & _).
  - right. split_and!; try reflexivity.
    + vm_compute. set_solver.
    + by left.
    + split_and!; [vm_compute; set_solver | reflexivity | by left | reflexivity].
  - vm_compute. reflexivity.
  - split; [reflexivity | split; [vm_compute; reflexivity | vm_compute; reflexivity]].
  - reflexivity.
  - split_and!; [exact Hret | | exact Hstats | exact Hfailed].
    unfold out. rewrite Hfiles. apply lookup_delete_eq.
Defined.

(** ** The engine: files are counted once *)

Lemma size_add_new (X : gset pystr) r : r ∉ X -> size (X ∪ {[r]}) = S (size X).
Proof.
  intros Hnew. rewrite size_union by set_solver. rewrite size_singleton. lia.
Qed.

(** One call adds at most its own path, and counts a file exactly when it
    adds the path. *)
Lemma extract_counts source r b c f s :
  let s' := (_extract_file_production source r b c f s).2 in
  extracted_files (self s) ⊆ extracted_files (self s')
  /\ extracted_files (self s') ⊆ extracted_files (self s) ∪ {[r]}
  /\ (total_files (stats (self s')) - total_files (stats (self s)))%Z
     = (Z.of_nat (size (extracted_files (self s')))
        - Z.of_nat (size (extracted_files (self s))))%Z
  /\ (0 <= total_files (stats (self s')) - total_files (stats (self s)) <= 1)%Z.
Proof.
  intros s'. pose proof (extract_accounted source r b c f s) as H. fold s' in H.
  unfold accounted in H. cbv zeta in H.
  destruct (_extract_file_production source r b c f s).1 as [[]|].
  - destruct H as (Hnew & -> & -> & _). rewrite size_add_new by done.
    split_and!; [set_solver | set_solver | lia | lia | lia].
  - destruct H as (-> & -> & _). split_and!; [done | set_solver | lia | lia | lia].
  - destruct H as (-> & -> & _). split_and!; [done | set_solver | lia | lia | lia].
Qed.

Lemma check_root_access_books source s :
  stats (self (check_root_access source s).2) = stats (self s)
  /\ extracted_files (self (check_root_access source s).2) = extracted_files (self s).
Proof.
  unfold check_root_access, _adb, log, bind, gets, modify, ret. simpl.
  repeat (case_match; simplify_eq; simpl in *; try done).
Qed.

(** X11.  Over any sequence of extractions and root checks, the extracted
    set only grows, and the file count grows by exactly the number of paths
    added to the set: no path is counted twice and nothing is counted that
    is not recorded. *)
Theorem files_counted_once source s s' :
  engine_run source s s' ->
  extracted_files (self s) ⊆ extracted_files (self s')
  /\ (total_files (stats (self s')) - total_files (stats (self s)))%Z
     = (Z.of_nat (size (extracted_files (self s')))
        - Z.of_nat (size (extracted_files (self s))))%Z.
Proof.
  induction 1 as [s|s s1 s' Hstep _ [IHsub IHcount]]; [split; [done | lia]|].
  assert (extracted_files (self s) ⊆ extracted_files (self s1)
          /\ (total_files (stats (self s1)) - total_files (stats (self s)))%Z
             = (Z.of_nat (size (extracted_files (self s1)))
                - Z.of_nat (size (extracted_files (self s))))%Z) as [Hsub Hcount].
  { destruct Hstep as [r s | s].
    - destruct (extract_counts source (remote_path r) (local_base_dir r) (category r)
                  (flatten r) s) as (? & _ & ? & _). done.
    - destruct (check_root_access_books source s) as [-> ->]. split; [done | lia]. }
  split; [set_solver | lia].
Qed.

Lemma files_counted_once_witness :
  extracted_files (self (start no_refusal (good_device 2097152)))
    ⊆ extracted_files (self after_photo)
  /\ (total_files (stats (self after_photo))
      - total_files (stats (self (start no_refusal (good_device 2097152)))))%Z
     = (Z.of_nat (size (extracted_files (self after_photo)))
        - Z.of_nat (size (extracted_files (self (start no_refusal (good_device 2097152))))))%Z.
Proof.
  apply (files_counted_once amat_data_collection).
  apply rtc_once. apply (step_extract amat_data_collection photo_request).
Defined.

Lemma extract_each_run source files dir c f s :
  exists s', extract_each source files dir c f s = (Ret tt, s')
             /\ extracted_files (self s) ⊆ extracted_files (self s')
             /\ extracted_files (self s') ⊆ extracted_files (self s) ∪ list_to_set files
             /\ (total_files (stats (self s')) - total_files (stats (self s)))%Z
                = (Z.of_nat (size (extracted_files (self s')))
                   - Z.of_nat (size (extracted_files (self s))))%Z
             /\ (0 <= total_files (stats (self s')) - total_files (stats (self s))
                 <= Z.of_nat (length files))%Z.
Proof.
  revert s. induction files as [|r files IH]; intros s.
  - exists s. simpl. split_and!; [done | done | set_solver | lia | lia | lia].
  - cbn [extract_each].
    destruct (extract_total source r dir c f s) as (o & s1 & Hrun).
    pose proof (extract_counts source r dir c f s) as H. cbv zeta in H.
    rewrite Hrun in H. cbn [snd] in H. destruct H as (Hsub & Hadd & Hcount & Hone).
    destruct (IH s1) as (s' & Heach & Hsub' & Hadd' & Hcount' & Hlen').
    exists s'. rewrite (bind_run _ _ _ _ _ Hrun).
    cbn [length]. clear IH.
    split_and!; [done | by etrans | | lia | lia | lia].
    intros x Hx. apply Hadd', elem_of_union in Hx as [Hx|Hx].
    + apply Hadd, elem_of_union in Hx as [Hx|Hx]; [by apply elem_of_union_l|].
      apply elem_of_union_r. rewrite list_to_set_cons. by apply elem_of_union_l.
    + apply elem_of_union_r. rewrite list_to_set_cons. by apply elem_of_union_r.
Qed.

(** X12.  The loop [for file_path in files: self._extract_file_production
    (file_path, ...)] never raises.  It records only paths of [files], it
    counts one file for each path it adds to the extracted set, and so it
    counts at most [len(files)] files. *)
Theorem extract_each_books source files dir c f s :
  let out := extract_each source files dir c f s in
  out.1 = Ret tt
  /\ extracted_files (self s) ⊆ extracted_files (self out.2)
  /\ extracted_files (self out.2) ⊆ extracted_files (self s) ∪ list_to_set files
  /\ (total_files (stats (self out.2)) - total_files (stats (self s)))%Z
     = (Z.of_nat (size (extracted_files (self out.2)))
        - Z.of_nat (size (extracted_files (self s))))%Z
  /\ (0 <= total_files (stats (self out.2)) - total_files (stats (self s))
      <= Z.of_nat (length files))%Z.
Proof.
  intros out. destruct (extract_each_run source files dir c f s) as (s' & Hrun & H).
  unfold out. rewrite Hrun. done.
Qed.

(** ** The engine: what is counted has a size *)

Lemma Qgt_bool_false a b : Qgt_bool a b = false -> (a <= b)%Q.
Proof.
  unfold Qgt_bool. intros H. apply negb_false_iff in H. by apply Qle_bool_iff.
Qed.

Lemma sized_false l s s' : sized l s (Ret false) s'.
Proof. by intros ?. Qed.

Lemma sized_handler source l r e s s1 :
  sized l s (on_exception source r e s1).1 (on_exception source r e s1).2.
Proof. destruct (on_exception_returns source r e s1) as [s' ->]. apply sized_false. Qed.

Lemma verify_sized source ok r fn l c s :
  sized l s (verify source ok r fn l c s).1 (verify source ok r fn l c s).2.
Proof.
  destruct (verify source ok r fn l c s) as [o s'] eqn:Hrun.
  unfold sized. cbn [fst snd]. intros ->.
  unfold verify, _get_file_size_mb, _add_to_stats, unlink, log, path_exists, stat_size,
    guarded, try_except, bind, gets, modify, ret in Hrun.
  repeat (case_match; simplify_eq; simpl in *; try done).
  all: match goal with
       | Hfile : files _ !! _ = Some ?n |- _ =>
           exists n; split_and!;
             [ done | by apply size_to_mb_positive | by apply Qgt_bool_false | done ]
       end.
Qed.

Lemma extract_with_sized source again r b c f s :
  (forall s, sized (local_target r b true) s (again r b c true s).1 (again r b c true s).2) ->
  sized (stored_target (world s) r b f) s
    (extract_with source again r b c f s).1 (extract_with source again r b c f s).2.
Proof.
  intros Hagain. unfold extract_with, try_except. rewrite pipeline_cases. cbv zeta.
  destruct (bool_decide (r ∈ extracted_files (self s))); [apply sized_false|].
  destruct (refuses (world s) op_exists (local_target r b f)); [apply sized_handler|].
  destruct (match files (world s) !! local_target r b f with
            | Some n => match refuses (world s) op_stat (local_target r b f) with
                        | Some e => Raise e
                        | None => Ret (0 <? n)
                        end
            | None => Ret false
            end) as [[]|e]; [apply sized_false | | apply sized_handler].
  unfold stored_target.
  destruct (refuses (world s) op_mkdir (path_parent (local_target r b f))) as [[]|] eqn:Hmk.
  - destruct f; [apply sized_false|]. rewrite Hmk.
    pose proof (Hagain (on_self (set_stats (upd_path_errors incr)) s)) as H.
    destruct (again r b c true _) as [[o|e] s']; [exact H | apply sized_handler].
  - apply sized_handler.
  - assert ((if f then local_target r b true
             else match refuses (world s) op_mkdir (path_parent (local_target r b false)) with
                  | Some OSError => local_target r b true
                  | _ => local_target r b false
                  end) = local_target r b f) as ->.
    { destruct f; [done|]. by rewrite Hmk. }
    pose proof (run_methods_bookkeeping source r (basename r) (local_target r b f) s) as Hkeep.
    unfold bind.
    destruct (run_methods source r (basename r) (local_target r b f) s) as [[ok|e] s1];
      [|apply sized_handler].
    destruct Hkeep as (Hst & _). simpl in Hst.
    pose proof (verify_sized source ok r (basename r) (local_target r b f) c s1) as H.
    destruct (verify source ok r (basename r) (local_target r b f) c s1) as [[o|e] s'];
      [|apply sized_handler].
    intros Ho. destruct (H Ho) as (n & ? & ? & ? & Htotal). exists n.
    rewrite <- Hst. done.
Qed.

(** X13.  What a call that returns true has stored: the workstation holds a
    file at the target (the flattened target when the retry was taken) that
    is not empty and not above the ceiling of 500 megabytes, and the grand
    total [total_mb] has grown by exactly the size of this file. *)
Theorem success_is_sized source r b c f s :
  let out := _extract_file_production source r b c f s in
  out.1 = Ret true ->
  exists n,
    files (world out.2) !! stored_target (world s) r b f = Some n
    /\ 0 < n
    /\ (size_to_mb n <= Config.MAX_FILE_SIZE_MB)%Q
    /\ total_mb (stats (self out.2)) = (total_mb (stats (self s)) + size_to_mb n)%Q.
Proof.
  intros out. apply extract_with_sized. intros s1.
  replace (local_target r b true) with (stored_target (world s1) r b true) by done.
  apply extract_with_sized. intros s2. apply sized_false.
Qed.

Lemma success_is_sized_witness :
  let out := _extract_file_production main (str "/sdcard/DCIM/img1.jpg")
               (str "case/04_MEDIA/photos") (str "media") true
               (start no_refusal (good_device 2097152)) in
  exists n,
    files (world out.2) !! str "case/04_MEDIA/photos/img1.jpg" = Some n
    /\ 0 < n
    /\ (size_to_mb n <= Config.MAX_FILE_SIZE_MB)%Q
    /\ total_mb (stats (self out.2)) = (0 + size_to_mb n)%Q.
Proof.
  apply (success_is_sized main (str "/sdcard/DCIM/img1.jpg") (str "case/04_MEDIA/photos")
           (str "media") true (start no_refusal (good_device 2097152))).
  vm_compute. reflexivity.
Defined.

(** ** The engine: statistics do not decrease *)

Lemma stats_le_refl st : stats_le st st.
Proof.
  unfold stats_le, size_totals, counters.
  split; repeat constructor; first [apply Qle_refl | lia].
Qed.

#[local] Instance Qle_transitive : Transitive Qle.
Proof. intros x y z. apply Qle_trans. Qed.

#[local] Instance stats_grow_preorder : PreOrder stats_grow.
Proof.
  split.
  - intros s. split; [apply stats_le_refl | lia].
  - intros s1 s2 s3 [[Hq Hz] Ht] [[Hq' Hz'] Ht']. split; [split|lia].
    + by transitivity (size_totals (stats (self s2))).
    + by transitivity (counters (stats (self s2))).
Qed.

Lemma size_to_mb_nonneg n : (0 <= size_to_mb n)%Q.
Proof.
  unfold size_to_mb, Qdiv. repeat apply Qmult_le_0_compat; try done.
  unfold Qle. simpl. lia.
Qed.

Lemma Qle_add_nonneg x q : (0 <= q)%Q -> (x <= x + q)%Q.
Proof.
  intros Hq. rewrite <- (Qplus_0_r x) at 1. by apply Qplus_le_r.
Qed.

Ltac grow_leaf :=
  try (intros ?); unfold stats_grow, stats_le, size_totals, counters, modify, on_self, on_world,
    incr; simpl;
  split_and!; try lia;
  repeat constructor;
  first [ apply Qle_refl | by apply Qle_add_nonneg, size_to_mb_nonneg | lia ].

Lemma unlink_stats_grow p : keeps stats_grow (unlink p).
Proof.
  apply keeps_guarded; [apply _|]. intros s. destruct (files _ !! _); grow_leaf.
Qed.

Lemma run_methods_stats_grow source r fn l : keeps stats_grow (run_methods source r fn l).
Proof.
  unfold run_methods, method1, method2, method3, pulled_ok, write_text, _shell, _adb, log.
  keeps_split; grow_leaf.
Qed.

Lemma verify_stats_grow source ok r fn l c : keeps stats_grow (verify source ok r fn l c).
Proof.
  intros s. destruct (verify source ok r fn l c s) as [o s'] eqn:Hrun.
  unfold verify, _get_file_size_mb, _add_to_stats, unlink, log, path_exists, stat_size,
    guarded, try_except, bind, gets, modify, ret in Hrun.
  repeat (case_match; simplify_eq; simpl in *; try done).
  all: grow_leaf.
Qed.

Lemma extract_with_stats_grow source again r b c f :
  (forall r b c f, keeps stats_grow (again r b c f)) ->
  keeps stats_grow (extract_with source again r b c f).
Proof.
  intros Hagain.
  pose proof (run_methods_stats_grow source) as Hmethods.
  pose proof (verify_stats_grow source) as Hverify.
  unfold extract_with, pipeline, on_exception, try_except_OSError, mkdir_parents, log.
  keeps_split; try done; grow_leaf.
Qed.

Lemma extract_stats_grow source r b c f :
  keeps stats_grow (_extract_file_production source r b c f).
Proof.
  apply extract_with_stats_grow. intros. apply extract_with_stats_grow.
  intros. apply keeps_ret. apply _.
Qed.

Lemma check_root_access_stats_grow source : keeps stats_grow (check_root_access source).
Proof. unfold check_root_access, _adb, log. keeps_split; grow_leaf. Qed.

(** X14.  Over any sequence of extractions and root checks, none of the seven
    megabyte totals and none of the twelve counters of the statistics
    decreases, and neither does the counter of staging names. *)
Theorem statistics_never_decrease source s s' :
  engine_run source s s' ->
  Forall2 Qle (size_totals (stats (self s))) (size_totals (stats (self s')))
  /\ Forall2 Z.le (counters (stats (self s))) (counters (stats (self s')))
  /\ (temp_counter (self s) <= temp_counter (self s'))%Z.
Proof.
  intros Hrun. cut (stats_grow s s'); [by intros [[? ?] ?]|].
  induction Hrun as [s | s1 s2 s3 Hstep _ IH]; [reflexivity|].
  etrans; [|exact IH]. destruct Hstep as [r s0 | s0].
  - apply extract_stats_grow.
  - apply check_root_access_stats_grow.
Qed.

Lemma statistics_never_decrease_witness :
  Forall2 Qle (size_totals (stats (self (start no_refusal (good_device 2097152)))))
    (size_totals (stats (self after_photo)))
  /\ Forall2 Z.le (counters (stats (self (start no_refusal (good_device 2097152)))))
       (counters (stats (self after_photo)))
  /\ (temp_counter (self (start no_refusal (good_device 2097152)))
      <= temp_counter (self after_photo))%Z.
Proof.
  apply (statistics_never_decrease amat_data_collection).
  apply rtc_once. apply (step_extract amat_data_collection photo_request).
Defined.

(** ** The engine: the grand total and the category totals *)

#[local] Instance stays_balanced_preorder : PreOrder stays_balanced.
Proof. split; unfold stays_balanced; [intros s | intros s1 s2 s3]; tauto. Qed.









(** ** The engine: no request for root without root *)

#[local] Instance quiet_preorder : PreOrder quiet.
Proof.
  split.
  - intros s. by split.
  - intros s1 s2 s3 [? ?] [? ?]. split; congruence.
Qed.

Lemma verify_quiet source ok r fn l c : keeps quiet (verify source ok r fn l c).
Proof.
  unfold verify, _get_file_size_mb, _add_to_stats, log, unlink.
  keeps_split; try keeps_leaf quiet.
  all: destruct (files _ !! _); by split.
Qed.

Lemma on_exception_quiet source r e : keeps quiet (on_exception source r e).
Proof. unfold on_exception, log. keeps_split; keeps_leaf quiet. Qed.

Lemma unprivileged_refl n s : has_root (self s) = false -> unprivileged n s s.
Proof.
  intros Hroot. split; [done|]. exists []. rewrite app_nil_r.
  split_and!; [done | constructor | simpl; lia].
Qed.

Lemma unprivileged_quiet n s s1 s' : unprivileged n s s1 -> quiet s1 s' -> unprivileged n s s'.
Proof.
  intros (Hroot & t & Hcalls & Ht) [Hq Hr]. split; [congruence|].
  exists t. by rewrite Hq.
Qed.

Lemma unprivileged_from n s0 s s' :
  calls (world s) = calls (world s0) -> unprivileged n s s' -> unprivileged n s0 s'.
Proof. intros Hc (Hroot & t & Hcalls & Ht). split; [done|]. exists t. by rewrite <- Hc. Qed.

Lemma unprivileged_handler source n r e s s1 :
  unprivileged n s s1 ->
  unprivileged n s (on_exception source r e s1).2.
Proof. intros H. eapply unprivileged_quiet; [exact H | apply on_exception_quiet]. Qed.

Lemma direct_call_no_su r l : is_su_call (direct_call r l) = false.
Proof. reflexivity. Qed.

Lemma stat_call_no_su r : is_su_call (stat_call false r) = false.
Proof.
  unfold is_su_call, stat_call, shell_call, stat_cmd. cbn [cmd].
  rewrite (bool_decide_eq_false_2 (_ = str "su")) by discriminate.
  apply andb_false_r.
Qed.

Lemma cat_call_no_su r : is_su_call (cat_call false r) = false.
Proof.
  unfold is_su_call, cat_call, shell_call, cat_cmd. cbn [cmd].
  rewrite (bool_decide_eq_false_2 (_ = str "su")) by discriminate.
  apply andb_false_r.
Qed.

Lemma method3_unprivileged source r l s :
  has_root (self s) = false ->
  exists t, calls (world (method3 source r l s).2) = calls (world s) ++ t
            /\ Forall (fun c => is_su_call c = false) t /\ (length t <= 2)%nat.
Proof.
  intros Hroot. pose proof (method3_run source r l s) as H. cbv zeta in H.
  rewrite Hroot in H. destruct H as (ok & s3 & t3 & -> & Hcalls & Ht3 & _).
  exists t3. split; [done|]. destruct Ht3 as [-> | [-> _]].
  - split; [|simpl; lia]. constructor; [apply stat_call_no_su | constructor].
  - split; [|simpl; lia].
    constructor; [apply stat_call_no_su |]. constructor; [apply cat_call_no_su | constructor].
Qed.

Lemma run_methods_unprivileged source r fn l s :
  has_root (self s) = false ->
  unprivileged 3 s (run_methods source r fn l s).2.
Proof.
  intros Hroot.
  pose proof (run_methods_bookkeeping source r fn l s) as (_ & _ & Hkeep & _).
  split; [congruence|]. clear Hkeep.
  unfold run_methods. rewrite is_private_guard.
  destruct (is_private r); cbn [negb].
  - unfold bind at 1, ret at 1. unfold bind at 1, gets at 1. rewrite Hroot.
    cbn [negb andb]. unfold bind at 1, ret at 1. cbn [negb].
    destruct (method3_unprivileged source r l s Hroot) as (t & ? & ? & ?).
    exists t. split_and!; [done | done | lia].
  - destruct (method1_run source r l s) as (o & s1 & Hm1 & Hw & Hroot1 & _).
    assert (calls (world s1) = calls (world s) ++ [direct_call r l]) as Hcalls1.
    { by rewrite Hw. }
    unfold bind at 1. rewrite Hm1. destruct o as [ok|e].
    + unfold bind at 1, gets at 1. rewrite Hroot1, Hroot, andb_false_r.
      unfold bind at 1, ret at 1. destruct ok; cbn [negb].
      * exists [direct_call r l]. split_and!; [done | by repeat constructor | simpl; lia].
      * destruct (method3_unprivileged source r l s1) as (t & Hcalls & Ht & Hlen);
          [congruence|].
        exists (direct_call r l :: t). split_and!.
        -- rewrite Hcalls, Hcalls1, <- app_assoc. done.
        -- by constructor.
        -- simpl. lia.
    + exists [direct_call r l]. split_and!; [done | by repeat constructor | simpl; lia].
Qed.

Lemma extract_with_unprivileged source again r b c f s :
  (forall s, has_root (self s) = false -> unprivileged 3 s (again r b c true s).2) ->
  has_root (self s) = false ->
  unprivileged 3 s (extract_with source again r b c f s).2.
Proof.
  intros Hagain Hroot. unfold extract_with, try_except. rewrite pipeline_cases. cbv zeta.
  set (l := local_target r b f).
  pose proof (unprivileged_refl 3 s Hroot) as Hrefl.
  destruct (bool_decide (r ∈ extracted_files (self s))); [done|].
  destruct (refuses (world s) op_exists l); [by apply unprivileged_handler|].
  destruct (match files (world s) !! l with
            | Some n => match refuses (world s) op_stat l with
                        | Some e => Raise e
                        | None => Ret (0 <? n)
                        end
            | None => Ret false
            end) as [[]|e]; [done | | by apply unprivileged_handler].
  destruct (refuses (world s) op_mkdir (path_parent l)) as [[]|].
  - assert (unprivileged 3 s (on_self (set_stats (upd_path_errors incr)) s)) as Hs1.
    { eapply unprivileged_quiet; [exact Hrefl | by split]. }
    destruct f; [done|].
    pose proof (Hagain (on_self (set_stats (upd_path_errors incr)) s) Hroot) as H.
    apply (unprivileged_from 3 s) in H; [|done].
    destruct (again r b c true _) as [[o|e] s']; [exact H | by apply unprivileged_handler].
  - by apply unprivileged_handler.
  - pose proof (run_methods_unprivileged source r (basename r) l s Hroot) as Hrun.
    unfold bind. destruct (run_methods source r (basename r) l s) as [[ok|e] s1];
      [|by apply unprivileged_handler].
    pose proof (verify_quiet source ok r (basename r) l c s1) as Hq.
    cbn [snd] in Hrun.
    assert (unprivileged 3 s (verify source ok r (basename r) l c s1).2) as H.
    { by eapply unprivileged_quiet. }
    destruct (verify source ok r (basename r) l c s1) as [[o|e] s'];
      [exact H | by apply unprivileged_handler].
Qed.

(** X16.  As long as [has_root] is false, an extraction never asks the
    device for root: it sends at most three commands (the pull, the size
    query, the cat), none of them of the form [shell su ...], and [has_root]
    is still false afterwards. *)
Theorem no_su_without_root source r b c f s :
  has_root (self s) = false ->
  let out := _extract_file_production source r b c f s in
  has_root (self out.2) = false
  /\ exists t, calls (world out.2) = calls (world s) ++ t
               /\ Forall (fun c => is_su_call c = false) t
               /\ (length t <= 3)%nat.
Proof.
  intros Hroot. apply extract_with_unprivileged; [|done].
  intros s1 Hroot1. apply extract_with_unprivileged; [|done].
  intros s2 Hroot2. by apply unprivileged_refl.
Qed.

Lemma no_su_without_root_witness :
  let out := _extract_file_production main (str "/sdcard/DCIM/img1.jpg")
               (str "case/04_MEDIA/photos") (str "media") true
               (start no_refusal truncating_device) in
  has_root (self out.2) = false
  /\ exists t, calls (world out.2) = [] ++ t
               /\ Forall (fun c => is_su_call c = false) t
               /\ (length t <= 3)%nat.
Proof.
  apply (no_su_without_root main (str "/sdcard/DCIM/img1.jpg")
           (str "case/04_MEDIA/photos") (str "media") true
           (start no_refusal truncating_device)).
  reflexivity.
Defined.

(** ** Listings: the lines of a [find] output *)

Lemma split_on_parts_without sep s : Forall (fun w => sep ∉ w) (split_on sep s).
Proof.
  induction s as [|c s IH]; cbn [split_on].
  - repeat constructor. apply not_elem_of_nil.
  - destruct (Ascii.eqb_spec c sep) as [->|Hc].
    + constructor; [apply not_elem_of_nil | done].
    + destruct (split_on sep s) as [|w ws].
      * constructor; [|constructor].
        apply not_elem_of_cons. split; [congruence | apply not_elem_of_nil].
      * inversion IH; subst. constructor; [|done].
        apply not_elem_of_cons. split; [congruence | done].
Qed.

(** What [lstrip] removes is a prefix. *)
Lemma lstrip_decompose s : exists sp, s = sp ++ lstrip s.
Proof.
  induction s as [|c s [sp IH]]; [by exists []|]. cbn [lstrip].
  destruct (is_space c); [|by exists []].
  exists (c :: sp). cbn [app]. by rewrite <- IH.
Qed.

Lemma lstrip_solid s : starts_solid (lstrip s).
Proof.
  induction s as [|c s IH]; [done|]. cbn [lstrip].
  destruct (is_space c) eqn:Hc; [exact IH | exact Hc].
Qed.

Lemma lstrip_fixed s : starts_solid s -> lstrip s = s.
Proof. destruct s as [|c s]; [done|]. simpl. by intros ->. Qed.

Lemma starts_solid_app s t : starts_solid (s ++ t) -> s <> [] -> starts_solid s.
Proof. by destruct s. Qed.

Lemma strip_solid s : starts_solid (strip s) /\ starts_solid (rev (strip s)).
Proof.
  unfold strip. rewrite rev_involutive. split; [|apply lstrip_solid].
  destruct (lstrip_decompose (rev (lstrip s))) as [sp Hsp].
  pose proof (lstrip_solid s) as Hhead.
  apply (f_equal (@rev ascii)) in Hsp. rewrite rev_involutive, rev_app_distr in Hsp.
  rewrite Hsp in Hhead.
  destruct (rev (lstrip (rev (lstrip s)))) eqn:Hu; [done|].
  by apply starts_solid_app in Hhead.
Qed.

Lemma strip_fixed s : starts_solid s -> starts_solid (rev s) -> strip s = s.
Proof.
  intros Hhead Hlast. unfold strip.
  rewrite (lstrip_fixed s) by done. rewrite (lstrip_fixed (rev s)) by done.
  apply rev_involutive.
Qed.

Lemma strip_idempotent s : strip (strip s) = strip s.
Proof. destruct (strip_solid s). by apply strip_fixed. Qed.

Lemma in_lstrip (c : ascii) s : c ∈ lstrip s -> c ∈ s.
Proof.
  destruct (lstrip_decompose s) as [sp Hsp]. intros Hin.
  rewrite Hsp. apply elem_of_app. by right.
Qed.

Lemma in_strip (c : ascii) s : c ∈ strip s -> c ∈ s.
Proof.
  unfold strip. intros Hin. apply list_elem_of_In, in_rev, list_elem_of_In in Hin.
  apply in_lstrip in Hin. apply list_elem_of_In, in_rev, list_elem_of_In in Hin.
  by apply in_lstrip.
Qed.

Lemma stripped_lines_spec lines f :
  f ∈ stripped_lines lines <-> f <> [] /\ exists w, w ∈ lines /\ f = strip w.
Proof.
  induction lines as [|w ws IH]; cbn [stripped_lines].
  - split; [by intros ?%elem_of_nil | intros (_ & w & ?%elem_of_nil & _); done].
  - destruct (strip w) as [|c u] eqn:Hw.
    + rewrite IH. split.
      * intros (Hne & w' & Hin & ->). split; [done|]. exists w'.
        split; [by apply list_elem_of_further | done].
      * intros (Hne & w' & Hin & ->). split; [done|]. exists w'. split; [|done].
        apply elem_of_cons in Hin as [-> | Hin]; [by rewrite Hw in Hne | done].
    + rewrite elem_of_cons, IH. split.
      * intros [-> | (Hne & w' & Hin & ->)].
        -- split; [done|]. exists w. split; [apply list_elem_of_here | done].
        -- split; [done|]. exists w'. split; [by apply list_elem_of_further | done].
      * intros (Hne & w' & Hin & ->). apply elem_of_cons in Hin as [-> | Hin].
        -- by left.
        -- right. split; [done|]. by exists w'.
Qed.

(** X17.  The listing that the acquisition methods build from the output of
    a [find] command: every entry is non-empty, holds no newline and has no
    white space at either end (stripping it again changes nothing); an
    output of white space only gives the empty listing. *)
Theorem listed_files_are_trimmed_lines (stdout : pystr) :
  Forall (fun f => f <> [] /\ (ch_newline ∉ f) /\ strip f = f) (listed_files stdout)
  /\ (strip stdout = [] -> listed_files stdout = []).
Proof.
  split.
  - apply Forall_forall. intros f Hin. unfold listed_files in Hin.
    apply stripped_lines_spec in Hin as (Hne & w & Hw & ->).
    split_and!; [done | | apply strip_idempotent].
    pose proof (split_on_parts_without ch_newline (strip stdout)) as Hall.
    rewrite Forall_forall in Hall. intros Hin. apply in_strip in Hin. by apply (Hall w).
  - intros Hempty. unfold listed_files. by rewrite Hempty.
Qed.

Example listed_files_sample :
  listed_files (str "/sdcard/a.jpg" ++ [ch_newline] ++ str "  " ++ [ch_newline]
                ++ str " /sdcard/b c.jpg " ++ [ch_newline])
  = [str "/sdcard/a.jpg"; str "/sdcard/b c.jpg"].
Proof. reflexivity. Qed.

(** ** The engine: what a call writes *)

#[local] Instance file_untouched_preorder T : PreOrder (file_untouched T).
Proof.
  split; unfold file_untouched; [intros s | intros s1 s2 s3]; congruence.
Qed.

Ltac untouched_leaf :=
  intros ?; unfold file_untouched, modify, on_self, on_world; simpl;
  try done; unfold pull_effect; repeat case_match; try done;
  rewrite ?lookup_insert_ne, ?lookup_delete_ne by congruence; done.

Lemma unlink_untouched l T : l <> T -> keeps (file_untouched T) (unlink l).
Proof.
  intros Hne. apply keeps_guarded; [apply _|]. intros s.
  destruct (files _ !! _); [|reflexivity]. revert s. untouched_leaf.
Qed.

Lemma run_methods_untouched source r fn l T :
  l <> T -> keeps (file_untouched T) (run_methods source r fn l).
Proof.
  intros Hne.
  unfold run_methods, method1, method2, method3, pulled_ok, write_text, _shell, _adb, log.
  keeps_split; untouched_leaf.
Qed.

Lemma verify_untouched source ok r fn l c T :
  l <> T -> keeps (file_untouched T) (verify source ok r fn l c).
Proof.
  intros Hne. pose proof (unlink_untouched l T Hne) as Hunlink.
  unfold verify, _get_file_size_mb, _add_to_stats, log.
  keeps_split; try done; untouched_leaf.
Qed.

Lemma extract_with_untouched source again r b c f T :
  keeps (file_untouched T) (again r b c true) ->
  local_target r b f <> T ->
  keeps (file_untouched T) (extract_with source again r b c f).
Proof.
  intros Hagain Hne.
  pose proof (fun fn => run_methods_untouched source r fn _ T Hne) as Hmethods.
  pose proof (fun ok fn => verify_untouched source ok r fn _ c T Hne) as Hverify.
  unfold extract_with, pipeline, on_exception, try_except_OSError, mkdir_parents, log.
  keeps_split; try done; untouched_leaf.
Qed.

(** X18.  A call writes at its own target only: the workstation's entry for
    any path other than the target of the call and its flattened target (the
    one of the retry) is after the call what it was before; no other file is
    created, overwritten or removed. *)
Theorem writes_only_its_target source r b c f s T :
  T <> local_target r b f ->
  T <> local_target r b true ->
  files (world (_extract_file_production source r b c f s).2) !! T = files (world s) !! T.
Proof.
  intros Hne Hflat. apply extract_with_untouched; [|done].
  apply extract_with_untouched; [|done]. apply keeps_ret. apply _.
Qed.

Lemma writes_only_its_target_witness :
  files (world (extract main nested_request (start deep_refused (good_device 4096))).2)
    !! str "case/02_APP_DATA/other.jpg"
  = files (world (start deep_refused (good_device 4096))) !! str "case/02_APP_DATA/other.jpg".
Proof.
  apply (writes_only_its_target main (str "/sdcard/DCIM/img1.jpg") (str "case/02_APP_DATA")
           (str "app_data") false (start deep_refused (good_device 4096))).
  - vm_compute. discriminate.
  - vm_compute. discriminate.
Defined.

(** ** The engine: the log *)

#[local] Instance log_extends_preorder source : PreOrder (log_extends source).
Proof.
  split.
  - intros s. exists []. by rewrite app_nil_r.
  - intros s1 s2 s3 (l1 & H1 & Hl1 & Hm1) (l2 & H2 & Hl2 & Hm2). exists (l1 ++ l2).
    split_and!.
    + by rewrite H2, H1, app_assoc.
    + by apply Forall_app.
    + intros Hmain. by rewrite Hm1, Hm2.
Qed.

Ltac log_leaf :=
  intros ?; unfold log_extends, modify, on_self, on_world; simpl;
  first [ by exists []; rewrite app_nil_r
        | eexists [_]; split_and!; [reflexivity | repeat constructor; by auto | done] ].

Lemma unlink_log source p : keeps (log_extends source) (unlink p).
Proof.
  apply keeps_guarded; [apply _|]. intros s.
  destruct (files _ !! _); [|reflexivity]. revert s. log_leaf.
Qed.

Lemma run_methods_log source r fn l :
  keeps (log_extends source) (run_methods source r fn l).
Proof.
  unfold run_methods, method1, method2, method3, pulled_ok, write_text, _shell, _adb, log.
  destruct source; keeps_split; log_leaf.
Qed.

Lemma verify_log source ok r fn l c : keeps (log_extends source) (verify source ok r fn l c).
Proof.
  pose proof (unlink_log source l) as Hunlink.
  unfold verify, _get_file_size_mb, _add_to_stats, log.
  destruct source; keeps_split; try done; log_leaf.
Qed.

Lemma extract_with_log source again r b c f :
  (forall r b c f, keeps (log_extends source) (again r b c f)) ->
  keeps (log_extends source) (extract_with source again r b c f).
Proof.
  intros Hagain.
  pose proof (run_methods_log source) as Hmethods.
  pose proof (verify_log source) as Hverify.
  unfold extract_with, pipeline, on_exception, try_except_OSError, mkdir_parents, log.
  destruct source; keeps_split; try done; log_leaf.
Qed.

(** X19.  A call never rewrites the log: the log after the call is the log
    before it with entries appended, each of level WARNING (a timeout of the
    device bridge) or DEBUG (a skipped large file, an extraction error).
    The engine of [main.py] appends nothing: there a call leaves no trace
    in the log, whatever happens. *)
Theorem log_is_append_only source r b c f s :
  exists entries,
    log_entries (self (_extract_file_production source r b c f s).2)
    = log_entries (self s) ++ entries
    /\ Forall (fun e => level e = str "WARNING" \/ level e = str "DEBUG") entries
    /\ (source = main -> entries = []).
Proof.
  apply extract_with_log. intros. apply extract_with_log.
  intros. apply keeps_ret. apply _.
Qed.

(** ** The engine: what is stored stays *)

(** X20.  Over any sequence of extractions and root checks, a non-empty file
    that the workstation reports is neither overwritten nor removed: its
    entry at the end is the one at the start. *)
Theorem stored_files_stay source T s s' :
  engine_run source s s' ->
  reports_nonempty (world s) T ->
  files (world s') !! T = files (world s) !! T.
Proof.
  induction 1 as [s | s1 s2 s3 Hstep _ IH]; [done|].
  intros Hrep.
  assert (target_kept T s1 s2) as Hkept.
  { destruct Hstep; [apply extract_target_kept | apply check_root_access_target_kept]. }
  destruct (Hkept Hrep) as [Hr Hf]. rewrite <- Hf. apply IH.
  by eapply reports_nonempty_transfer.
Qed.

Lemma stored_files_stay_witness :
  files (world (extract amat_data_collection photo_b after_photo).2)
    !! str "case/04_MEDIA/photos/img1.jpg"
  = files (world after_photo) !! str "case/04_MEDIA/photos/img1.jpg".
Proof.
  apply (stored_files_stay amat_data_collection).
  - apply rtc_once. apply (step_extract amat_data_collection photo_b).
  - split_and!; [reflexivity | reflexivity |].
    exists 2097152. split; [vm_compute; reflexivity | done].
Defined.

(** ** The engine: the root flag and the staging counter *)

#[local] Instance flags_kept_preorder : PreOrder flags_kept.
Proof.
  split.
  - intros s. by split.
  - intros s1 s2 s3 [? ?] [? ?]. split; congruence.
Qed.

Lemma one_staging_refl s : one_staging s s.
Proof. split; [done | by left]. Qed.

Lemma one_staging_then_kept s s1 s' : one_staging s s1 -> flags_kept s1 s' -> one_staging s s'.
Proof.
  intros [Hr Hc] [Hr' Hc']. split; [congruence|].
  destruct Hc as [Hc | [Hroot Hc]]; [left | right; split; [done|]]; congruence.
Qed.

Lemma kept_then_one_staging s s1 s' : flags_kept s s1 -> one_staging s1 s' -> one_staging s s'.
Proof.
  intros [Hr Hc] [Hr' Hc']. split; [congruence|].
  destruct Hc' as [Hc' | [Hroot Hc']]; [left | right; split]; congruence.
Qed.

Lemma method1_flags source r l : keeps flags_kept (method1 source r l).
Proof. unfold method1, pulled_ok, _adb, log. keeps_split; keeps_leaf flags_kept. Qed.

Lemma method3_flags source r l : keeps flags_kept (method3 source r l).
Proof.
  unfold method3, write_text, _shell, _adb, log. keeps_split; keeps_leaf flags_kept.
Qed.

Lemma verify_flags source ok r fn l c : keeps flags_kept (verify source ok r fn l c).
Proof.
  unfold verify, _get_file_size_mb, _add_to_stats, log, unlink.
  keeps_split; try keeps_leaf flags_kept.
  all: destruct (files _ !! _); by split.
Qed.

Lemma on_exception_flags source r e : keeps flags_kept (on_exception source r e).
Proof. unfold on_exception, log. keeps_split; keeps_leaf flags_kept. Qed.

Lemma one_staging_handler source r e s s1 :
  one_staging s s1 -> one_staging s (on_exception source r e s1).2.
Proof. intros H. eapply one_staging_then_kept; [exact H | apply on_exception_flags]. Qed.

Lemma run_methods_one_staging source r fn l s :
  one_staging s (run_methods source r fn l s).2.
Proof.
  unfold run_methods.
  set (first := if negb (startswith r (str "/data/data/"))
                   && negb (startswith r (str "/data/user/"))
                then method1 source r l else ret false).
  assert (keeps flags_kept first) as Hfirst.
  { unfold first. destruct (_ && _); [apply method1_flags | apply keeps_ret; apply _]. }
  unfold bind at 1. specialize (Hfirst s).
  destruct (first s) as [[ok|e] s1]; cbn [snd] in Hfirst.
  2: { eapply one_staging_then_kept; [apply one_staging_refl | exact Hfirst]. }
  unfold bind at 1, gets at 1.
  assert (forall ok' s2, one_staging s s2 ->
            one_staging s ((if negb ok' then method3 source r l else ret ok') s2).2) as Hlast.
  { intros ok' s2 H. eapply one_staging_then_kept; [exact H|].
    destruct (negb ok'); [apply method3_flags | done]. }
  unfold bind at 1.
  destruct (negb ok && has_root (self s1)) eqn:Hsecond.
  - apply andb_true_iff in Hsecond as [_ Hroot].
    pose proof (method2_counter source r fn l s1) as Hcount.
    pose proof (method2_run source r fn l s1 Hroot) as Hrun. cbv zeta in Hrun.
    destruct Hrun as (o & s2 & Hm2 & _ & Hroot2 & _). rewrite Hm2 in Hcount |- *.
    cbn [snd] in Hcount.
    assert (one_staging s s2) as Hs2.
    { destruct Hfirst as [Hr Hc]. split; [congruence|]. right. split; congruence. }
    destruct o as [ok2|e]; [by apply Hlast | exact Hs2].
  - unfold ret at 1. apply Hlast.
    eapply one_staging_then_kept; [apply one_staging_refl | exact Hfirst].
Qed.

Lemma extract_with_one_staging source again r b c f s :
  (forall s, one_staging s (again r b c true s).2) ->
  one_staging s (extract_with source again r b c f s).2.
Proof.
  intros Hagain. unfold extract_with, try_except. rewrite pipeline_cases. cbv zeta.
  set (l := local_target r b f).
  pose proof (one_staging_refl s) as Hrefl.
  destruct (bool_decide (r ∈ extracted_files (self s))); [done|].
  destruct (refuses (world s) op_exists l); [by apply one_staging_handler|].
  destruct (match files (world s) !! l with
            | Some n => match refuses (world s) op_stat l with
                        | Some e => Raise e
                        | None => Ret (0 <? n)
                        end
            | None => Ret false
            end) as [[]|e]; [done | | by apply one_staging_handler].
  destruct (refuses (world s) op_mkdir (path_parent l)) as [[]|].
  - destruct f; [done|].
    pose proof (Hagain (on_self (set_stats (upd_path_errors incr)) s)) as H.
    apply (kept_then_one_staging s) in H; [|by split].
    destruct (again r b c true _) as [[o|e] s']; [exact H | by apply one_staging_handler].
  - by apply one_staging_handler.
  - pose proof (run_methods_one_staging source r (basename r) l s) as Hrun.
    unfold bind. destruct (run_methods source r (basename r) l s) as [[ok|e] s1];
      [|by apply one_staging_handler].
    pose proof (verify_flags source ok r (basename r) l c s1) as Hq.
    cbn [snd] in Hrun.
    assert (one_staging s (verify source ok r (basename r) l c s1).2) as H.
    { by eapply one_staging_then_kept. }
    destruct (verify source ok r (basename r) l c s1) as [[o|e] s'];
      [exact H | by apply one_staging_handler].
Qed.

(** X21.  A call leaves [has_root] as it is (only [check_root_access] sets
    it), and it raises the staging counter by at most one, and only when
    [has_root] is true: a call makes at most one root copy. *)
Theorem call_keeps_root_flag source r b c f s :
  let out := _extract_file_production source r b c f s in
  has_root (self out.2) = has_root (self s)
  /\ (temp_counter (self out.2) = temp_counter (self s)
      \/ (has_root (self s) = true
          /\ temp_counter (self out.2) = (temp_counter (self s) + 1)%Z)).
Proof.
  apply extract_with_one_staging. intros s1. apply extract_with_one_staging.
  intros s2. apply one_staging_refl.
Qed.

(** ** The engine: the cat fallback *)




(** ** MD5 test vectors (RFC 1321 and [hashlib]) *)

Example md5_empty : MD5.hexdigest (encode (str "")) = str "d41d8cd98f00b204e9800998ecf8427e".
Proof. vm_compute. reflexivity. Qed.

Example md5_abc : MD5.hexdigest (encode (str "abc")) = str "900150983cd24fb0d6963f7d28e17f72".
Proof. vm_compute. reflexivity. Qed.

Example md5_a64 :
  MD5.hexdigest (encode (repeat "a"%char 64)) = str "014842d480b571495a4a0363793f7367".
Proof. vm_compute. reflexivity. Qed.

Example md5_a201 :
  MD5.hexdigest (encode (repeat "a"%char 201)) = str "15936442c22dab9b685de350bfe75971".
Proof. vm_compute. reflexivity. Qed.

Example md5_latin1 :
  MD5.hexdigest (encode [ascii_of_N 233]) = str "66ddcd97cfdeabb2f6fb8a999b4bc76f".
Proof. vm_compute. reflexivity. Qed.
